(** * polydawn/errors: error classes, classified errors and the [try] plans

    A shallow embedding of [errors.go] and [try/try.go].

    Go pointers are addresses into a store: a [*ErrorClass] is an index into
    the list of classes allocated so far, a [*Error] an index into the list
    of errors.  The literal [nil] is [None]; allocation appends, so an
    address is never reused and the comparison [a == b] of two pointers is
    the comparison of two addresses.

    A Go function that may panic is a state transformer that returns either
    its value or the panic's payload; state changes made before the panic
    stay, as they do in Go. *)

From Stdlib Require Import ZArith String Ascii List Lia.
From stdpp Require Import base option list gmap strings pretty.

Local Open Scope Z_scope.

(** ** Interface values *)

Abbreviation class_ptr := nat (only parsing).
Abbreviation error_ptr := nat (only parsing).

(** A non-nil value of the interface type [error]: either a [*errors.Error]
    or a value of any other type that has an [Error() string] method, which
    is known by an identity and the message it returns. *)
Inductive error :=
| ErrorPtr (p : error_ptr)
| PlainError (id : nat) (msg : string).

(** A value of a type that does not implement [error].  [ObjV] stands for
    a value of a reference type, known by its address and by what [%v]
    prints for it. *)
Inductive datum :=
| IntV (n : Z)
| StrV (s : string)
| ObjV (addr : nat) (shown : string).

(** A non-nil value of [interface{}]. *)
Inductive value :=
| ErrV (e : error)
| DatV (d : datum).

(** The nil interface value is [None]. *)
Definition iface (v : option error) : option value := ErrV <$> v.

(** ** Functions that may panic *)

Inductive result (A : Type) :=
| Ok (a : A)
| Panic (v : option value).
Arguments Ok {A} a.
Arguments Panic {A} v.

Definition M (S A : Type) : Type := S -> S * result A.

Definition ret {S A} (a : A) : M S A := fun s => (s, Ok a).

Definition bind {S A B} (c : M S A) (k : A -> M S B) : M S B :=
  fun s => match c s with
           | (s', Ok a) => k a s'
           | (s', Panic v) => (s', Panic v)
           end.

Definition panic {S A} (v : option value) : M S A := fun s => (s, Panic v).

Definition gets {S A} (f : S -> A) : M S A := fun s => (s, Ok (f s)).

Definition modify {S} (f : S -> S) : M S unit := fun s => (f s, Ok tt).

Declare Scope go_scope.
Delimit Scope go_scope with go.
Notation "x <- c ;; k" := (bind c (fun x => k))
  (at level 100, c at next level, right associativity) : go_scope.
Notation "c ;; k" := (bind c (fun _ => k))
  (at level 100, right associativity) : go_scope.

(** What the runtime panics with when a nil pointer is dereferenced or a nil
    function is called; it is an [error], and not a [*errors.Error]. *)
Definition nil_dereference : option value :=
  Some (ErrV (PlainError 0
    "runtime error: invalid memory address or nil pointer dereference")).

(** [make([]byte, n)] with a negative [n]. *)
Definition makeslice_range : option value :=
  Some (ErrV (PlainError 0 "runtime error: makeslice: len out of range")).

(** Reading through a pointer. *)
Definition deref {S A} (o : option A) : M S A :=
  match o with
  | Some a => ret a
  | None => panic nil_dereference
  end.

(** The one-byte string that Go writes ["\n"]. *)
Definition newline : string := String (ascii_of_nat 10) EmptyString.

(** ** The functions of package [strings] that [Error.Error] calls *)

Module strings.

Definition in_cutset (c : ascii) (cutset : string) : bool :=
  bool_decide (c ∈ list_ascii_of_string cutset).

(** [strings.TrimRight(s, cutset)]: [s] without its trailing bytes that
    are in [cutset]. *)
Fixpoint TrimRight (s cutset : string) : string :=
  match s with
  | EmptyString => EmptyString
  | String c s' =>
      match TrimRight s' cutset with
      | EmptyString => if in_cutset c cutset then EmptyString
                       else String c EmptyString
      | t => String c t
      end
  end.

(** [strings.Contains(s, substr)]. *)
Fixpoint Contains (s substr : string) : bool :=
  String.prefix substr s ||
  match s with
  | EmptyString => false
  | String _ s' => Contains s' substr
  end.

(** [strings.Replace(s, old, new, -1)] for a non-empty [old]: every
    non-overlapping occurrence of [old], from the left, becomes [new].
    [skip] counts the bytes of the occurrence just replaced that are
    still to be dropped. *)
Fixpoint replace_from (skip : nat) (s old new : string) : string :=
  match s with
  | EmptyString => EmptyString
  | String c s' =>
      match skip with
      | S k => replace_from k s' old new
      | O => if String.prefix old s
             then new +:+ replace_from (String.length old - 1) s' old new
             else String c (replace_from 0 s' old new)
      end
  end.

(** With an empty [old], [new] goes before every byte and at the end. *)
Fixpoint intersperse (s new : string) : string :=
  match s with
  | EmptyString => new
  | String c s' => new +:+ String c (intersperse s' new)
  end.

Definition ReplaceAll (s old new : string) : string :=
  match old with
  | EmptyString => intersperse s new
  | _ => replace_from 0 s old new
  end.

End strings.

(** ** Package [errors] *)

Module errors.

(** [type ErrorClassFlags uint64] *)
Abbreviation ErrorClassFlags := Z (only parsing).
Definition uint64_max : Z := 2 ^ 64 - 1.

Definition LogOnCreation : ErrorClassFlags := Z.shiftl 1 0.
Definition CaptureStack : ErrorClassFlags := Z.shiftl 1 1.

(** The operators of [uint64] that the constructors use. *)
Definition flags_or (a b : ErrorClassFlags) : ErrorClassFlags := Z.lor a b.
Definition flags_and (a b : ErrorClassFlags) : ErrorClassFlags := Z.land a b.
Definition flags_not (a : ErrorClassFlags) : ErrorClassFlags :=
  Z.lxor a uint64_max.

Record ErrorClass := mkErrorClass {
  parent : option class_ptr;
  name : string;
  flags : ErrorClassFlags
}.

(** A key of the data side-table, as [GenSym] issues them. *)
Abbreviation DataKey := nat (only parsing).

(** Modelled from the spec: the side channels of an [Error].  [try.go]
    is written against a revision of this package whose errors also
    carry a data side-table ("an associative side-table keyed by
    process-wide unique symbolic keys, values arbitrary") and an
    exit-path record; that revision is not among the sources. *)
Record Side := mkSide {
  data : gmap DataKey value;
  exits : list Z
}.

Definition no_side : Side := mkSide ∅ [].

(** [type Error struct]: [err], [class] and [stack] as in [errors.go], a
    nil [stack] being [None]; [side] holds the side channels. *)
Record Error := mkError {
  err : option error;
  class : option class_ptr;
  stack : option (list Byte.byte);
  side : Side
}.

(** What the package's functions read and write. *)
Record Store := mkStore {
  classes : list ErrorClass;       (* every ErrorClass allocated so far *)
  errs : list Error;               (* every Error allocated so far *)
  plain_errors : nat;              (* how many values fmt.Errorf has made *)
  stackLogSize : Z;                (* flag errors.stack_trace_log_length *)
  stackCaptureSize : Z;            (* flag errors.stack_trace_capture_length *)
  goroutine : list Byte.byte;      (* what runtime.Stack would write now *)
  frames : nat -> Z;               (* the call site that many frames up *)
  logged : list string             (* what log.Printf has written *)
}.

Definition with_classes (cs : list ErrorClass) (s : Store) : Store :=
  mkStore cs (errs s) (plain_errors s) (stackLogSize s)
          (stackCaptureSize s) (goroutine s) (frames s) (logged s).

Definition with_errs (es : list Error) (s : Store) : Store :=
  mkStore (classes s) es (plain_errors s) (stackLogSize s)
          (stackCaptureSize s) (goroutine s) (frames s) (logged s).

Definition with_plain_errors (n : nat) (s : Store) : Store :=
  mkStore (classes s) (errs s) n (stackLogSize s)
          (stackCaptureSize s) (goroutine s) (frames s) (logged s).

Definition with_logged (l : list string) (s : Store) : Store :=
  mkStore (classes s) (errs s) (plain_errors s) (stackLogSize s)
          (stackCaptureSize s) (goroutine s) (frames s) l.

(** [&ErrorClass{...}] *)
Definition alloc_class (c : ErrorClass) (s : Store) : Store * class_ptr :=
  (with_classes (classes s ++ [c]) s, length (classes s)).

(** The two base classes are the first two allocations of the package. *)
Definition SystemError : class_ptr := 0%nat.
Definition HierarchicalError : class_ptr := 1%nat.

Definition base_classes : list ErrorClass :=
  [ mkErrorClass None "System Error" 0;
    mkErrorClass None "Error" CaptureStack ].

(** [ec.flags] for a class that is allocated. *)
Definition flags_of (s : Store) (ec : class_ptr) : ErrorClassFlags :=
  from_option flags 0 (classes s !! ec).

(** [if ec == nil { ec = HierarchicalError }] *)
Definition or_root (ec : option class_ptr) : class_ptr :=
  match ec with
  | None => HierarchicalError
  | Some c => c
  end.

Definition NewSpecified (ec : option class_ptr) (name : string)
    (flags : ErrorClassFlags) (s : Store) : Store * class_ptr :=
  let ec := or_root ec in
  alloc_class (mkErrorClass (Some ec) name flags) s.

Definition NewWith (ec : option class_ptr) (name : string)
    (flags_to_add : ErrorClassFlags) (s : Store) : Store * class_ptr :=
  let ec := or_root ec in
  alloc_class
    (mkErrorClass (Some ec) name (flags_or (flags_of s ec) flags_to_add)) s.

Definition NewWithout (ec : option class_ptr) (name : string)
    (flags_to_remove : ErrorClassFlags) (s : Store) : Store * class_ptr :=
  let ec := or_root ec in
  alloc_class
    (mkErrorClass (Some ec) name
       (flags_and (flags_of s ec) (flags_not flags_to_remove))) s.

Definition New (ec : option class_ptr) (name : string) (s : Store)
    : Store * class_ptr :=
  let ec := or_root ec in
  alloc_class (mkErrorClass (Some ec) name (flags_of s ec)) s.

(** [func (e *ErrorClass) Parent() *ErrorClass] *)
Definition ErrorClass_Parent (e : class_ptr) : M Store (option class_ptr) :=
  (c <- (fun s => deref (classes s !! e) s) ;; ret (parent c))%go.

(** [func (e *ErrorClass) Is(parent *ErrorClass) bool]

    [for check := e; check != nil; check = check.parent].  A class is
    allocated after its parent, so the walk takes at most one step per
    allocated class; [fuel] is that bound. *)
Fixpoint Is_walk (fuel : nat) (cs : list ErrorClass)
    (check parent_ : option class_ptr) : bool :=
  match check with
  | None => false
  | Some c =>
      if decide (check = parent_) then true
      else match fuel with
           | O => false
           | S fuel' =>
               match cs !! c with
               | Some k => Is_walk fuel' cs (parent k) parent_
               | None => false
               end
           end
  end.

Definition ErrorClass_Is (s : Store) (e parent_ : option class_ptr) : bool :=
  Is_walk (length (classes s)) (classes s) e parent_.

(** *** Errors *)

Definition deref_error (p : error_ptr) : M Store Error :=
  fun s => deref (errs s !! p) s.

Definition deref_class (p : option class_ptr) : M Store ErrorClass :=
  fun s => deref (p ≫= fun a => classes s !! a) s.

(** [&Error{...}] *)
Definition alloc_error (x : Error) : M Store error_ptr :=
  fun s => (with_errs (errs s ++ [x]) s, Ok (length (errs s))).

(** [make([]byte, n)]; what comes back is the length of the new slice. *)
Definition make_bytes (n : Z) : M Store nat :=
  if n <? 0 then panic makeslice_range else ret (Z.to_nat n).

(** [buf[:runtime.Stack(buf, false)]] for a [buf] of [size] bytes. *)
Definition runtime_Stack (size : nat) : M Store (list Byte.byte) :=
  gets (fun s => take size (goroutine s)).

(** [func LogWithStack(message string)] *)
Definition LogWithStack (message : string) : M Store unit :=
  (size <- (fun s => make_bytes (stackLogSize s) s) ;;
   buf <- runtime_Stack size ;;
   modify (fun s =>
     with_logged
       (logged s ++ [message +:+ newline +:+ string_of_list_byte buf])
       s))%go.

(** The body of [Error.Error] once [e.err.Error()] has returned
    [cause_message] and [e.class.String()] has returned [class_name]. *)
Definition render (class_name cause_message : string)
    (stack : option (list Byte.byte)) : string :=
  let message := strings.TrimRight cause_message (newline +:+ " ") in
  let message :=
    if strings.Contains message newline
    then class_name +:+ ":" +:+ newline +:+ "  "
           +:+ strings.ReplaceAll message newline (newline +:+ "  ")
    else class_name +:+ ": " +:+ message in
  match stack with
  | None => message
  | Some bytes =>
      message +:+ newline +:+ newline +:+ class_name +:+ " backtrace: "
        +:+ string_of_list_byte bytes
  end.

(** [v.Error()] for an [error] interface value [v]; [None] when the call
    faults (a nil interface, a nil [*Error], a nil class).  The method of
    [*Error] calls the method of its cause; the cause was allocated
    before the error that wraps it, so [fuel] above the address of the
    error is enough. *)
Fixpoint error_text (fuel : nat) (s : Store) (v : option error)
    : option string :=
  match v with
  | None => None
  | Some (PlainError _ msg) => Some msg
  | Some (ErrorPtr p) =>
      match fuel with
      | O => None
      | S fuel' =>
          e ← errs s !! p;
          cause_message ← error_text fuel' s (err e);
          c ← class e ≫= (fun a => classes s !! a);
          Some (render (name c) cause_message (stack e))
      end
  end.

(** [func (e *Error) Error() string] *)
Definition Error_Error (e : error_ptr) : M Store string :=
  fun s => deref (error_text (S e) s (Some (ErrorPtr e))) s.

(** [func (e *Error) Is(ec *ErrorClass) bool] *)
Definition Error_Is (e : error_ptr) (ec : option class_ptr) : M Store bool :=
  (x <- deref_error e ;;
   gets (fun s => ErrorClass_Is s (class x) ec))%go.

(** [for _, class := range classes { if ec.Is(class) { return err } }];
    [true] when the loop returned [err]. *)
Fixpoint Is_any (ec : error_ptr) (classes_ : list (option class_ptr))
    : M Store bool :=
  match classes_ with
  | [] => ret false
  | class_ :: rest =>
      (b <- Error_Is ec class_ ;;
       if b : bool then ret true else Is_any ec rest)%go
  end.

Definition set_stack (rv : error_ptr) (bytes : list Byte.byte)
    : M Store unit :=
  modify (fun s =>
    with_errs
      (alter (fun x => mkError (err x) (class x) (Some bytes) (side x))
             rv (errs s)) s).

(** [func (e *ErrorClass) Wrap(err error, classes ...*ErrorClass) error] *)
Definition Wrap (e : option class_ptr) (err_ : option error)
    (classes_ : list (option class_ptr)) : M Store (option error) :=
  match err_ with
  | None => ret None
  | Some cause =>
      (unchanged <-
         match cause with
         | ErrorPtr ec =>
             b <- Error_Is ec e ;;
             if b : bool then ret true else Is_any ec classes_
         | PlainError _ _ => ret false
         end ;;
       if unchanged : bool then ret err_
       else
         rv <- alloc_error (mkError err_ e None no_side) ;;
         c <- deref_class e ;;
         (if 0 <? flags_and (flags c) CaptureStack
          then size <- (fun s => make_bytes (stackCaptureSize s) s) ;;
               buf <- runtime_Stack size ;;
               set_stack rv buf
          else ret tt) ;;
         (if 0 <? flags_and (flags c) LogOnCreation
          then message <- Error_Error rv ;;
               LogWithStack message
          else ret tt) ;;
         ret (Some (ErrorPtr rv)))%go
  end.

(** [fmt.Errorf] with the message already formatted: a new value each
    time. *)
Definition Errorf (msg : string) : M Store error :=
  fun s => (with_plain_errors (S (plain_errors s)) s,
            Ok (PlainError (S (plain_errors s)) msg)).

(** [func (e *ErrorClass) New(format string, args ...interface{}) error],
    [msg] being [format] with [args] filled in. *)
Definition ErrorClass_New (e : option class_ptr) (msg : string)
    : M Store (option error) :=
  (cause <- Errorf msg ;; Wrap e (Some cause) [])%go.

(** [func (e *Error) WrappedErr() error], [Class()] and [Stack()] *)
Definition Error_WrappedErr (e : error_ptr) : M Store (option error) :=
  (x <- deref_error e ;; ret (err x))%go.
Definition Error_Class (e : error_ptr) : M Store (option class_ptr) :=
  (x <- deref_error e ;; ret (class x))%go.
Definition Error_Stack (e : error_ptr) : M Store (option (list Byte.byte)) :=
  (x <- deref_error e ;; ret (stack x))%go.

(** *** The package's own classes

    [errors.go] declares them in this order, after the two base classes. *)
Definition NotImplementedError : class_ptr := 2%nat.
Definition ProgrammerError : class_ptr := 3%nat.
Definition SyscallError : class_ptr := 4%nat.
Definition ErrnoError : class_ptr := 5%nat.
Definition NetworkError : class_ptr := 6%nat.
Definition UnknownNetworkError : class_ptr := 7%nat.
Definition AddrError : class_ptr := 8%nat.
Definition InvalidAddrError : class_ptr := 9%nat.
Definition NetOpError : class_ptr := 10%nat.
Definition NetParseError : class_ptr := 11%nat.
Definition DNSError : class_ptr := 12%nat.
Definition DNSConfigError : class_ptr := 13%nat.

Definition declare (mk : Store -> Store * class_ptr) (s : Store) : Store :=
  fst (mk s).

Definition package_vars (s : Store) : Store :=
  let s := with_classes base_classes s in
  let s := declare (NewWith None "Not Implemented Error" LogOnCreation) s in
  let s := declare (NewWith None "Programmer Error" LogOnCreation) s in
  let s := declare (New (Some SystemError) "Syscall Error") s in
  let s := declare (New (Some SystemError) "Errno Error") s in
  let s := declare (New (Some SystemError) "Network Error") s in
  let s := declare (New (Some NetworkError) "Unknown Network Error") s in
  let s := declare (New (Some NetworkError) "Addr Error") s in
  let s := declare (New (Some AddrError) "Invalid Addr Error") s in
  let s := declare (New (Some NetworkError) "Network Op Error") s in
  let s := declare (New (Some NetworkError) "Network Parse Error") s in
  let s := declare (New (Some NetworkError) "DNS Error") s in
  declare (New (Some DNSError) "DNS Config Error") s.

(** *** What [try.go] uses and [errors.go] does not have *)

(** Modelled from the spec: [errors.NewClass(name)], missing from
    [errors.go].  "Construct-plain (inherit unchanged) ... nil/absent
    parent defaults to the stack-capturing hierarchical root." *)
Definition NewClass (name : string) (s : Store) : Store * class_ptr :=
  New None name s.

(** An [ErrorOption] changes the error under construction. *)
Definition ErrorOption := Error -> Error.

(** Modelled from the spec: [errors.SetData(key, value)], missing from
    [errors.go].  "SetData(key, value) producer usable at wrap time." *)
Definition SetData (key : DataKey) (v : option value) : ErrorOption :=
  fun x => mkError (err x) (class x) (stack x)
                   (mkSide (match v with
                            | Some v => <[key := v]> (data (side x))
                            | None => delete key (data (side x))
                            end)
                           (exits (side x))).

(** Modelled from the spec: [errors.GetData(err, key)], missing from
    [errors.go].  "GetData(error, key) -> value|absent"; absent is the
    nil interface. *)
Definition GetData (s : Store) (err_ : option error) (key : DataKey)
    : option value :=
  match err_ with
  | Some (ErrorPtr p) => x ← errs s !! p; data (side x) !! key
  | _ => None
  end.

(** Modelled from the spec: the method [NewWith(message, options...)] of
    a class, missing from [errors.go].  It is [New] followed by the
    options: a new error of the class around a new cause that carries
    the message, on which each option then acts. *)
Definition ErrorClass_NewWith (e : option class_ptr) (message : string)
    (options : list ErrorOption) : M Store (option error) :=
  (w <- ErrorClass_New e message ;;
   match w with
   | Some (ErrorPtr rv) =>
       modify (fun s =>
         with_errs (alter (fun x => foldl (fun x o => o x) x options)
                          rv (errs s)) s) ;;
       ret w
   | _ => ret w
   end)%go.

(** Modelled from the spec: [errors.RecordBefore(err, depth)], missing
    from [errors.go].  "Append a record of the current boundary's
    location to the Error's exit-path side-channel (non-fatal
    bookkeeping, purely additive, never changes identity)." *)
Definition RecordBefore (e : error_ptr) (depth : nat) : M Store unit :=
  modify (fun s =>
    with_errs
      (alter (fun x => mkError (err x) (class x) (stack x)
                               (mkSide (data (side x))
                                       (exits (side x) ++ [frames s depth])))
             e (errs s)) s).

End errors.

(** ** Package [try] *)

Module try.
Import errors.

(** [UnknownPanicError = errors.NewClass("Unknown Error")] is allocated
    when the package is initialised, after the classes of [errors]. *)
Definition UnknownPanicError : class_ptr := 14%nat.

(** [OriginalErrorKey = errors.GenSym()], the first key issued. *)
Definition OriginalErrorKey : DataKey := 0%nat.

Definition package_vars (s : Store) : Store :=
  declare (NewClass "Unknown Error") (errors.package_vars s).

(** The classes that exist once both packages are initialised. *)
Definition known_classes : list ErrorClass :=
  Eval vm_compute in
  classes (package_vars (mkStore [] [] 0 4096 2048 [] (fun _ => 0) [])).

(** [fmt.Sprintf("%v", rec)] for a [rec] that is not an [error]. *)
Definition Sprint (d : datum) : string :=
  match d with
  | IntV n => pretty n
  | StrV s => s
  | ObjV _ shown => shown
  end.

(** What [fmt.Sprintf] makes of the format ["misuse of try internals"]
    and one surplus argument, a function value: the runtime appends a
    note that names the argument. *)
Definition misuse_message : string :=
  "misuse of try internals%!(EXTRA errors.ErrorOption)".

(** A failed type assertion [x.(T)]. *)
Definition bad_assertion : option value :=
  Some (ErrV (PlainError 0 "interface conversion: wrong dynamic type")).

Section Plans.

(** Whatever else the program can change: the closures given to a plan
    act on it and on the store. *)
Context {W : Type}.

Record State := mkState {
  store : Store;
  world : W
}.

(** A call into package [errors]. *)
Definition in_store {A} (c : M Store A) : M State A :=
  fun s => match c (store s) with
           | (st, r) => (mkState st (world s), r)
           end.

(** A value of a function type: [None] is the nil function, and calling
    it faults. *)
Definition func (A : Type) : Type := option (A -> M State unit).

Definition call {A} (f : func A) (a : A) : M State unit :=
  match f with
  | Some g => g a
  | None => panic nil_dereference
  end.

Record check := mkCheck {
  match_ : option class_ptr;
  handler : func error_ptr;             (* func(err *errors.Error) *)
  anyhandler : func (option error)      (* func(err error) *)
}.

Record Plan := mkPlan {
  main : func unit;
  catch : list check;
  finally : func unit
}.

Definition Do (f : func unit) : Plan :=
  mkPlan f [] (Some (fun _ => ret tt)).

Definition Catch (kind : option class_ptr) (handler : func error_ptr)
    (p : Plan) : Plan :=
  mkPlan (main p) (catch p ++ [mkCheck kind handler None]) (finally p).

Definition CatchAll (handler : func (option error)) (p : Plan) : Plan :=
  mkPlan (main p) (catch p ++ [mkCheck None None handler]) (finally p).

Definition Finally (f : func unit) (p : Plan) : Plan :=
  let f2 := finally p in
  mkPlan (main p) (catch p)
         (Some (fun _ => call f tt ;; call f2 tt)%go).

(** *** [defer] and [recover] *)

(** [defer d(); body] where [d] does not call [recover]: [d] runs when
    [body] returns and when it panics; a panic of [d] takes the place
    of the one in flight, which otherwise goes on. *)
Definition defer_ {S} (d : M S unit) (body : M S unit) : M S unit :=
  fun s => match body s with
           | (s1, r1) =>
               match d s1 with
               | (s2, Ok _) => (s2, r1)
               | (s2, Panic v) => (s2, Panic v)
               end
           end.

(** [defer func() { rec := recover(); d(rec) }(); body]: [recover]
    returns the payload of the panic of [body], or nil when there is
    none, and stops it; what the deferred function then does is the
    outcome.  A [panic(nil)] gives nil too, as in the Go releases this
    code was written for. *)
Definition defer_recover {S} (d : option value -> M S unit)
    (body : M S unit) : M S unit :=
  fun s => match body s with
           | (s1, Ok _) => d None s1
           | (s1, Panic v) => d v s1
           end.

(** The state together with the local variable [consumed] of the
    deferred function of [Done]. *)
Definition Frame : Type := State * bool.

Definition outer {A} (c : M State A) : M Frame A :=
  fun f => match c (fst f) with
           | (s, r) => ((s, snd f), r)
           end.

Definition set_consumed (b : bool) : M Frame unit :=
  modify (fun f => (fst f, b)).

Definition consumed : M Frame bool := gets snd.

(** [consumed := init; body], the variable going out of scope at the
    end. *)
Definition var_consumed (init : bool) (body : M Frame unit)
    : M State unit :=
  fun s => match body (s, init) with
           | (f, r) => (fst f, r)
           end.

(** *** The three loops of [Done] *)

(** [case *errors.Error:] *)
Fixpoint catch_classified (err_ : error_ptr) (cs : list check)
    : M Frame unit :=
  match cs with
  | [] => ret tt
  | c :: rest =>
      if decide (match_ c = None)
      then (set_consumed true ;;
            outer (call (anyhandler c) (Some (ErrorPtr err_))))%go
      else (b <- outer (in_store (Error_Is err_ (match_ c))) ;;
            if b : bool
            then set_consumed true ;;
                 outer (call (handler c) err_)
            else catch_classified err_ rest)%go
  end.

(** [case error:] *)
Fixpoint catch_plain (err_ : error) (cs : list check) : M Frame unit :=
  match cs with
  | [] => ret tt
  | c :: rest =>
      if decide (match_ c = None)
      then (set_consumed true ;;
            outer (call (anyhandler c) (Some err_)))%go
      else catch_plain err_ rest
  end.

(** [UnknownPanicError.NewWith(msg, errors.SetData(OriginalErrorKey, rec))] *)
Definition wrap_unknown (rec : datum) : M Store (option error) :=
  let msg := Sprint rec in
  ErrorClass_NewWith (Some UnknownPanicError) msg
    [SetData OriginalErrorKey (Some (DatV rec))].

(** The type assertion of [pan] to a pointer to [errors.Error]. *)
Definition assert_Error {S} (pan : option error) : M S error_ptr :=
  match pan with
  | Some (ErrorPtr p) => ret p
  | _ => panic bad_assertion
  end.

(** [default:] *)
Fixpoint catch_unknown (rec : datum) (cs : list check) : M Frame unit :=
  match cs with
  | [] => ret tt
  | c :: rest =>
      if decide (match_ c = None)
      then (set_consumed true ;;
            pan <- outer (in_store (wrap_unknown rec)) ;;
            outer (call (anyhandler c) pan))%go
      else (b <- outer (in_store (gets (fun s =>
                   ErrorClass_Is s (Some UnknownPanicError) (match_ c)))) ;;
            if b : bool
            then set_consumed true ;;
                 pan <- outer (in_store (wrap_unknown rec)) ;;
                 p <- assert_Error pan ;;
                 outer (call (handler c) p)
            else catch_unknown rec rest)%go
  end.

(** [switch err := rec.(type)] *)
Definition dispatch (p : Plan) (rec : option value) : M Frame unit :=
  match rec with
  | None => set_consumed true
  | Some (ErrV (ErrorPtr err_)) =>
      (outer (in_store (RecordBefore err_ 3)) ;;
       catch_classified err_ (catch p))%go
  | Some (ErrV err_) => catch_plain err_ (catch p)
  | Some (DatV d) => catch_unknown d (catch p)
  end.

(** [func (p *Plan) Done()] *)
Definition Done (p : Plan) : M State unit :=
  defer_recover
    (fun rec =>
       var_consumed false
         (defer_
            (outer (call (finally p) tt) ;;
             b <- consumed ;;
             if negb b then panic rec else ret tt)%go
            (dispatch p rec)))
    (call (main p) tt).

(** [func OriginalError(err error) interface{}] *)
Definition OriginalError (s : Store) (err_ : option error)
    : option value :=
  match GetData s err_ OriginalErrorKey with
  | None => iface err_
  | Some d => Some d
  end.

(** [func Repanic(err error)] *)
Definition Repanic (err_ : option error) : M State unit :=
  match err_ with
  | Some (ErrorPtr wrapper) =>
      (b <- in_store (Error_Is wrapper (Some UnknownPanicError)) ;;
       if negb b then panic (iface err_)
       else
         d <- in_store (gets (fun s => GetData s err_ OriginalErrorKey)) ;;
         match d with
         | None =>
             e <- in_store (ErrorClass_New (Some ProgrammerError)
                                           misuse_message) ;;
             panic (iface e)
         | Some _ => panic d
         end)%go
  | _ => panic (iface err_)
  end.

End Plans.

Arguments State : clear implicits.
Arguments check : clear implicits.
Arguments Plan : clear implicits.

End try.

(** * The vocabulary of the statements *)

Import errors.

(** ** The class hierarchy *)

(** [a] lies on the path of parent links that starts at [e]. *)
Inductive on_chain (cs : list ErrorClass)
  : option class_ptr -> class_ptr -> Prop :=
| chain_here c : on_chain cs (Some c) c
| chain_up c k a :
    cs !! c = Some k -> on_chain cs (parent k) a -> on_chain cs (Some c) a.

(** A class is allocated after its parent: the only way to build a class is
    a constructor, and it is given a parent that exists. *)
Definition classes_wf (cs : list ErrorClass) : Prop :=
  forall c k p, cs !! c = Some k -> parent k = Some p -> (p < c)%nat.

Fixpoint classes_wfb_from (c : nat) (cs : list ErrorClass) : bool :=
  match cs with
  | [] => true
  | k :: rest =>
      match parent k with
      | Some p => bool_decide (p < c)%nat
      | None => true
      end && classes_wfb_from (S c) rest
  end.

Definition classes_wfb (cs : list ErrorClass) : bool := classes_wfb_from 0 cs.

(** The store holds the classes of the two packages where their
    initialisation put them. *)
Definition initialised (s : Store) : Prop :=
  try.known_classes `prefix_of` classes s.

(** *** What a constructor does to the store *)


(** *** Calls that leave the classes alone *)

Definition keeps_classes {A} (c : M Store A) : Prop :=
  forall s, classes (fst (c s)) = classes s.

(** ** Stores to try the statements on *)

(** The store once both packages are initialised, the flags at their
    defaults. *)
Definition boot : Store :=
  Eval vm_compute in
  try.package_vars (mkStore [] [] 0 4096 2048 [] (fun _ => 0) []).

(** ** Wrapping *)

(** [Wrap] hands [cause] back: it is a [*Error] whose class is [e] or one
    of [exempt], up the parent links. *)
Definition exempted (s : Store) (e : option class_ptr)
    (exempt : list (option class_ptr)) (cause : error) : Prop :=
  exists p x, cause = ErrorPtr p /\ errs s !! p = Some x /\
    (ErrorClass_Is s (class x) e = true \/
     Exists (fun c => ErrorClass_Is s (class x) c = true) exempt).

(** [Wrap] wraps [cause]: it is not a [*Error], or it is one whose class is
    neither [e] nor one of [exempt]. *)
Definition wrappable (s : Store) (e : option class_ptr)
    (exempt : list (option class_ptr)) (cause : error) : Prop :=
  match cause with
  | PlainError _ _ => True
  | ErrorPtr p =>
      exists x, errs s !! p = Some x /\
        ErrorClass_Is s (class x) e = false /\
        Forall (fun c => ErrorClass_Is s (class x) c = false) exempt
  end.

(** The stack that [Wrap] gives a new error of a class with flags [fl]. *)
Definition captured (s : Store) (fl : ErrorClassFlags)
    : option (list Byte.byte) :=
  if 0 <? flags_and fl CaptureStack
  then Some (take (Z.to_nat (stackCaptureSize s)) (goroutine s))
  else None.

(** Nothing in the way of [Wrap] for a new error of class [c] around
    [cause]: the buffers it makes have a length, and the cause has a
    message when the message is to be logged. *)
Definition can_wrap (s : Store) (c : ErrorClass) (cause : error) : Prop :=
  ((0 <? flags_and (flags c) CaptureStack) = true ->
     0 <= stackCaptureSize s) /\
  ((0 <? flags_and (flags c) LogOnCreation) = true ->
     0 <= stackLogSize s /\
     is_Some (error_text (length (errs s)) s (Some cause))).

(** ** The text of an error *)

Definition nl : ascii := ascii_of_nat 10.

(** A blank at the end of a message: a newline or a space. *)
Definition blank (c : ascii) : Prop := c = nl \/ c = " "%char.

(** [s] is made of blanks only. *)
Definition blanks (s : string) : Prop :=
  Forall blank (list_ascii_of_string s).

(** [s] does not end in a blank. *)
Definition ends_clean (s : string) : Prop :=
  forall t c, s = t +:+ String c EmptyString -> ~ blank c.

Definition single_line (s : string) : Prop :=
  nl ∉ list_ascii_of_string s.

(** The lines of [s]: what stands between its newlines. *)
Fixpoint split_lines (s : string) : list string :=
  match s with
  | EmptyString => [EmptyString]
  | String c s' =>
      if decide (c = nl) then EmptyString :: split_lines s'
      else match split_lines s' with
           | l :: ls => String c l :: ls
           | [] => [String c EmptyString]
           end
  end.

(** Each line of [message] on a line of its own, two spaces in, under the
    class name and a colon. *)
Definition indented (class_name message : string) : string :=
  class_name +:+ ":" +:+
  foldr String.append EmptyString
        (map (fun l => newline +:+ "  " +:+ l) (split_lines message)).

(** The text of an error of the class [class_name] whose message, once
    trimmed, is [message]. *)
Definition Error_format (class_name message : string)
    (stack : option (list Byte.byte)) : string :=
  let head := if bool_decide (single_line message)
              then class_name +:+ ": " +:+ message
              else indented class_name message in
  match stack with
  | None => head
  | Some bytes =>
      head +:+ newline +:+ newline +:+ class_name +:+ " backtrace: "
        +:+ string_of_list_byte bytes
  end.

(** A store with one error of the root class around a plain error whose
    message is [msg]. *)
Definition one_error (msg : string) (stack_ : option (list Byte.byte)) : Store :=
  with_errs [mkError (Some (PlainError 1 msg)) (Some HierarchicalError)
                     stack_ no_side] boot.

(** ** Plans *)

Import try.

(** [a], at index [i], is the first element of [l] that [P] accepts. *)
Definition first_at {A} (P : A -> bool) (l : list A) (i : nat) (a : A) : Prop :=
  l !! i = Some a /\ P a = true /\
  forall j b, (j < i)%nat -> l !! j = Some b -> P b = false.

(** [P] accepts no element of [l]. *)
Definition none_of {A} (P : A -> bool) (l : list A) : Prop :=
  forall a, a ∈ l -> P a = false.

(** The entry is the wildcard. *)
Definition wildcard {W} (c : check W) : bool := bool_decide (match_ c = None).

(** The entry catches an error of the class [cls]: it is the wildcard, or
    [cls] is its class, up the parent links. *)
Definition catches {W} (s : Store) (cls : option class_ptr) (c : check W)
    : bool :=
  wildcard c || ErrorClass_Is s cls (match_ c).

(** The call of the one handler of the entry [c]: of the wildcard's with
    the fault as an [error], of a typed entry's with it as a [*Error]. *)
Definition invoke {W} (c : check W) (e : error_ptr) : M (State W) unit :=
  if wildcard c then call (anyhandler c) (Some (ErrorPtr e))
  else call (handler c) e.

(** What [recover()] returns after a call that ended as [r]. *)
Definition recovered (r : result unit) : option value :=
  match r with
  | Ok _ => None
  | Panic v => v
  end.

(** The end of [Done]: with the state [s2] in which the handlers left the
    program, [b] telling whether the fault [rec] was consumed and [r2] how
    the selected handler ended, [finally] is called once; its fault, if
    any, is the outcome, else the fault of the handler, else [rec] again
    when it was not consumed. *)
Definition finish {W} (p : Plan W) (rec : option value)
    (s2 : State W) (b : bool) (r2 : result unit) : State W * result unit :=
  match call (finally p) tt s2 with
  | (s3, Ok _) => (s3, if b then r2 else Panic rec)
  | (s3, Panic v) => (s3, Panic v)
  end.

(** The state once [RecordBefore] has noted the exit of the error [e]. *)
Definition noted {W} (e : error_ptr) (s : State W) : State W :=
  fst (in_store (RecordBefore e 3) s).

(** The error that [Done] makes of a payload [d] that is not an [error],
    in the store [st]. *)
Definition unknown_fault (st : Store) (d : datum) : Error :=
  mkError (Some (PlainError (S (plain_errors st)) (Sprint d)))
          (Some UnknownPanicError)
          (Some (take (Z.to_nat (stackCaptureSize st)) (goroutine st)))
          (mkSide {[OriginalErrorKey := DatV d]} []).

(** [err_] is not an error of the unknown-fault class: it is nil, or an
    error of another type, or a classified one whose class is not the
    unknown-fault class, up the parent links. *)
Definition not_unknown (st : Store) (err_ : option error) : Prop :=
  match err_ with
  | None => True
  | Some (PlainError _ _) => True
  | Some (ErrorPtr w) =>
      exists x, errs st !! w = Some x /\
                ErrorClass_Is st (class x) (Some UnknownPanicError) = false
  end.

(** ** Plans to try the statements on

    The plans of [try_test.go]: the world is what was printed. *)

Definition FruitError : class_ptr := 15%nat.
Definition AppleError : class_ptr := 16%nat.
Definition RockError : class_ptr := 17%nat.

(** [boot] after [errors.NewClass("fruit")], [FruitError.NewClass("apple")]
    and [errors.NewClass("rock")]. *)
Definition fruit_store : Store :=
  Eval vm_compute in
  declare (New None "rock")
    (declare (New (Some FruitError) "apple")
       (declare (New None "fruit") boot)).

Definition start : State (list string) := mkState fruit_store [].

(** [fmt.Println(m)] *)
Definition say (m : string) : M (State (list string)) unit :=
  modify (fun s => mkState (store s) (world s ++ [m])).

(** [panic(class.New(msg))] *)
Definition raise_new (class_ : class_ptr) (msg : string)
    : M (State (list string)) unit :=
  (e <- in_store (ErrorClass_New (Some class_) msg) ;; panic (iface e))%go.

(** [panic(fmt.Errorf(msg))] *)
Definition raise_plain (msg : string) : M (State (list string)) unit :=
  (e <- in_store (Errorf msg) ;; panic (Some (ErrV e)))%go.

(** An apple is raised; [Catch(FruitError)], [Catch(AppleError)] and
    [CatchAll] are registered in that order. *)
Definition plan_fruit : Plan (list string) :=
  CatchAll (Some (fun _ => say "catch wildcard called"))
    (Catch (Some AppleError) (Some (fun _ => say "apple handler called"))
       (Catch (Some FruitError) (Some (fun _ => say "fruit handler called"))
          (Finally (Some (fun _ => say "finally block called"))
             (Do (Some (fun _ => say "function called" ;;
                                 raise_new AppleError "emsg")%go))))).

(** [ExampleCrashInCatch]: the wildcard handler raises a fault of its own. *)
Definition plan_crash : Plan (list string) :=
  CatchAll (Some (fun _ => say "catch wildcard called" ;; raise_plain "zomg")%go)
    (Finally (Some (fun _ => say "finally block called"))
       (Do (Some (fun _ => say "function called" ;;
                           raise_plain "any error")%go))).

(** A plain error is raised and only a typed entry is registered. *)
Definition plan_typed_only : Plan (list string) :=
  Catch (Some FruitError) (Some (fun _ => say "fruit handler called"))
    (Finally (Some (fun _ => say "finally block called"))
       (Do (Some (fun _ => say "function called" ;;
                           raise_plain "inner error")%go))).

(** What a handler prints of the payload kept in the error [e]. *)
Definition say_original (e : option error) : M (State (list string)) unit :=
  (d <- in_store (gets (fun st => GetData st e OriginalErrorKey)) ;;
   say ("original: " +:+ match d with
                         | Some (DatV v) => Sprint v
                         | _ => "none"
                         end))%go.

(** [ExampleCatchingUnknownErrorsByType]: [panic(3)]. *)
Definition plan_int : Plan (list string) :=
  CatchAll (Some (fun _ => say "catch wildcard called"))
    (Catch (Some UnknownPanicError)
           (Some (fun e => say_original (Some (ErrorPtr e))))
       (Catch (Some RockError) (Some (fun _ => say "catch a rock"))
          (Finally (Some (fun _ => say "finally block called"))
             (Do (Some (fun _ => say "function called" ;;
                                 panic (Some (DatV (IntV 3))))%go))))).

(** [panic(nil)] under a wildcard entry. *)
Definition plan_nil : Plan (list string) :=
  CatchAll (Some (fun _ => say "catch wildcard called"))
    (Finally (Some (fun _ => say "finally block called"))
       (Do (Some (fun _ => say "function called" ;; panic None)%go))).

(** The same plan with a block that returns. *)
Definition plan_return : Plan (list string) :=
  CatchAll (Some (fun _ => say "catch wildcard called"))
    (Finally (Some (fun _ => say "finally block called"))
       (Do (Some (fun _ => say "function called")))).

(** ** More of [errors.go] *)

(** [func WrappedErr(err error) error] *)
Definition WrappedErr (err_ : option error) : M Store (option error) :=
  match err_ with
  | Some (ErrorPtr cast) => Error_WrappedErr cast
  | _ => ret err_
  end.

(** The dynamic type of an [error] that is not a [*Error], as far as the
    type switch of [findSystemErrorClass] tells types apart.  [NetError] is
    any other type that implements [net.Error]; [OtherType] is the rest,
    the nil interface included. *)
Inductive go_type :=
| OsSyscallError
| SyscallErrno
| NetUnknownNetworkError
| NetAddrError
| NetInvalidAddrError
| NetOpError_
| NetParseError_
| NetDNSError
| NetDNSConfigError
| NetError
| OtherType.

(** [func findSystemErrorClass(err error) *ErrorClass] *)
Definition findSystemErrorClass (t : go_type) : class_ptr :=
  match t with
  | OsSyscallError => SyscallError
  | SyscallErrno => ErrnoError
  | NetUnknownNetworkError => UnknownNetworkError
  | NetAddrError => AddrError
  | NetInvalidAddrError => InvalidAddrError
  | NetOpError_ => NetOpError
  | NetParseError_ => NetParseError
  | NetDNSError => DNSError
  | NetDNSConfigError => DNSConfigError
  | NetError => NetworkError
  | OtherType => SystemError
  end.

(** [func GetClass(err error) *ErrorClass], [t] being the dynamic type of
    [err] when it is not a [*Error]. *)
Definition GetClass (err_ : option error) (t : go_type)
    : M Store (option class_ptr) :=
  match err_ with
  | Some (ErrorPtr cast) => Error_Class cast
  | _ => ret (Some (findSystemErrorClass t))
  end.

(** [func (e *ErrorClass) Contains(err error) bool] *)
Definition ErrorClass_Contains (e : option class_ptr) (err_ : option error)
    (t : go_type) : M Store bool :=
  (c <- GetClass err_ t ;; gets (fun s => ErrorClass_Is s c e))%go.

(** An error is allocated after its cause, and its class is allocated:
    [Wrap] is the only way to build one. *)
Definition errs_wf (s : Store) : Prop :=
  forall p x, errs s !! p = Some x ->
    is_Some (class x ≫= fun a => classes s !! a) /\
    match err x with
    | None => False
    | Some (PlainError _ _) => True
    | Some (ErrorPtr q) => (q < p)%nat
    end.

(** What [mk], a constructor given the parent [p], does to the hierarchy:
    the store stays well-formed; [Parent] of the new class is [p]; the new
    class is itself and all that [p] is, and nothing else; what the classes
    that existed are does not change, and none of them is the new class. *)
Definition extends_under (mk : Store -> Store * class_ptr) (s : Store)
    (p : class_ptr) : Prop :=
  let s' := fst (mk s) in
  let c := snd (mk s) in
  classes_wf (classes s') /\
  ErrorClass_Parent c s' = (s', Ok (Some p)) /\
  (forall a, ErrorClass_Is s' (Some c) a = true <->
             a = Some c \/ ErrorClass_Is s (Some p) a = true) /\
  (forall e a, (e < length (classes s))%nat ->
     ErrorClass_Is s' (Some e) a = ErrorClass_Is s (Some e) a) /\
  (forall e, (e < length (classes s))%nat ->
     ErrorClass_Is s' (Some e) (Some c) = false).

(** The call [c] leaves the first [n] errors of the store as they are. *)
Definition keeps_below (n : nat) {A} (c : M Store A) : Prop :=
  forall s, (n <= length (errs s))%nat ->
    take n (errs (fst (c s))) = take n (errs s) /\
    (n <= length (errs (fst (c s))))%nat.

(** [Catch(nil, handler)] on a block that raises a plain error. *)
Definition plan_nil_class : Plan (list string) :=
  Catch None (Some (fun _ => say "handler called"))
    (Finally (Some (fun _ => say "finally block called"))
       (Do (Some (fun _ => say "function called" ;; raise_plain "oops")%go))).

(** [Do(f)] alone, for a block that raises a plain error. *)
Definition block_raises : unit -> M (State (list string)) unit :=
  fun _ => (say "function called" ;; raise_plain "oops")%go.

(** * Proofs *)

Lemma classes_wfb_from_sound cs : forall c0 c k p,
  classes_wfb_from c0 cs = true ->
  cs !! c = Some k -> parent k = Some p -> (p < c0 + c)%nat.
Proof.
  induction cs as [|k0 rest IH]; intros c0 c k p Hb Hc Hp; [done|].
  cbn in Hb. apply andb_prop in Hb as [Hk Hrest].
  destruct c as [|c]; cbn in Hc.
  - injection Hc as ->. rewrite Hp in Hk.
    apply bool_decide_eq_true in Hk. lia.
  - specialize (IH (S c0) c k p Hrest Hc Hp). lia.
Qed.

Lemma classes_wfb_sound cs : classes_wfb cs = true -> classes_wf cs.
Proof.
  intros Hb c k p Hc Hp.
  apply (classes_wfb_from_sound cs 0%nat c k p Hb Hc Hp).
Qed.

Lemma classes_wf_snoc cs k :
  classes_wf cs ->
  (forall p, parent k = Some p -> (p < length cs)%nat) ->
  classes_wf (cs ++ [k]).
Proof.
  intros Hwf Hk c k' p Hc Hp.
  destruct (decide (c < length cs)%nat) as [Hlt|Hge].
  - rewrite lookup_app_l in Hc by done. eauto.
  - rewrite lookup_app_r in Hc by lia.
    destruct (c - length cs)%nat as [|n] eqn:E; cbn in Hc; [|done].
    injection Hc as <-. specialize (Hk p Hp). lia.
Qed.

Lemma on_chain_le cs : classes_wf cs ->
  forall e a, on_chain cs e a -> forall c, e = Some c -> (a <= c)%nat.
Proof.
  intros Hwf e a H.
  induction H as [c|c k a Hk Hup IH]; intros c' [= <-]; [lia|].
  destruct (parent k) as [p|] eqn:Hp; [|inversion Hup].
  specialize (Hwf c k p Hk Hp). specialize (IH p eq_refl). lia.
Qed.

Lemma Is_walk_nil_target fuel cs e : Is_walk fuel cs e None = false.
Proof.
  revert e. induction fuel as [|fuel IH]; intros [c|]; try done.
  simpl. destruct (cs !! c); [apply IH|done].
Qed.

Lemma Is_walk_eq fuel cs c a :
  Is_walk fuel cs (Some c) a =
  if decide (Some c = a) then true
  else match fuel with
       | O => false
       | S fuel' =>
           match cs !! c with
           | Some k => Is_walk fuel' cs (parent k) a
           | None => false
           end
       end.
Proof. by destruct fuel. Qed.

Lemma on_chain_inv cs c a :
  on_chain cs (Some c) a ->
  c = a \/ exists k, cs !! c = Some k /\ on_chain cs (parent k) a.
Proof. intros H. inversion H; subst; eauto. Qed.

Lemma on_chain_nil cs a : ~ on_chain cs None a.
Proof. intros H. inversion H. Qed.

(** The walk and the path agree as soon as the fuel covers the address the
    walk starts from. *)
Lemma Is_walk_on_chain cs : classes_wf cs ->
  forall fuel c a, (c <= fuel)%nat ->
    Is_walk fuel cs (Some c) (Some a) = true <-> on_chain cs (Some c) a.
Proof.
  intros Hwf. induction fuel as [|fuel IH]; intros c a Hc;
    rewrite Is_walk_eq; case_decide as Hca.
  - injection Hca as <-. split; [intros _; apply chain_here|done].
  - split; [done|]. intros [->|(k & Hk & Hup)]%on_chain_inv; [done|].
    destruct (parent k) as [p|] eqn:Hp; [|by apply on_chain_nil in Hup].
    specialize (Hwf c k p Hk Hp). lia.
  - injection Hca as <-. split; [intros _; apply chain_here|done].
  - destruct (cs !! c) as [k|] eqn:Hk.
    + destruct (parent k) as [p|] eqn:Hp.
      * assert (p <= fuel)%nat by (specialize (Hwf c k p Hk Hp); lia).
        rewrite IH by done. split.
        -- intros H'. apply (chain_up cs c k a Hk). by rewrite Hp.
        -- intros [->|(k' & Hk' & Hup)]%on_chain_inv; [done|].
           rewrite Hk in Hk'. injection Hk' as <-. by rewrite Hp in Hup.
      * split; [by destruct fuel|].
        intros [->|(k' & Hk' & Hup)]%on_chain_inv; [done|].
        rewrite Hk in Hk'. injection Hk' as <-.
        rewrite Hp in Hup. by apply on_chain_nil in Hup.
    + split; [done|].
      intros [->|(k' & Hk' & Hup)]%on_chain_inv; [done|congruence].
Qed.

Lemma Is_walk_unallocated fuel cs c a :
  cs !! c = None ->
  Is_walk fuel cs (Some c) (Some a) = true <-> on_chain cs (Some c) a.
Proof.
  intros Hc. rewrite Is_walk_eq. case_decide as Hca.
  - injection Hca as <-. split; [intros _; apply chain_here|done].
  - rewrite Hc. split; [by destruct fuel|].
    intros [->|(k' & Hk' & Hup)]%on_chain_inv; [done|congruence].
Qed.

Lemma ErrorClass_Is_on_chain s e a :
  classes_wf (classes s) ->
  ErrorClass_Is s e (Some a) = true <-> on_chain (classes s) e a.
Proof.
  intros Hwf. unfold ErrorClass_Is. destruct e as [c|].
  - destruct (classes s !! c) as [k|] eqn:Hk.
    + apply Is_walk_on_chain; [done|].
      apply lookup_lt_Some in Hk. lia.
    + by apply Is_walk_unallocated.
  - split; [by destruct (length (classes s))|]. intros H. by apply on_chain_nil in H.
Qed.

Lemma ErrorClass_Is_refl s c : ErrorClass_Is s (Some c) (Some c) = true.
Proof. unfold ErrorClass_Is. rewrite Is_walk_eq. by case_decide. Qed.

Lemma ErrorClass_Is_nil s e : ErrorClass_Is s e None = false.
Proof. apply Is_walk_nil_target. Qed.





Lemma classes_wf_alloc s k :
  classes_wf (classes s) ->
  (forall p, parent k = Some p -> (p < length (classes s))%nat) ->
  classes_wf (classes (fst (alloc_class k s))).
Proof. intros. by apply classes_wf_snoc. Qed.

Lemma New_wf s ec n :
  classes_wf (classes s) -> (or_root ec < length (classes s))%nat ->
  classes_wf (classes (fst (New ec n s))).
Proof.
  intros Hwf Hp. apply classes_wf_alloc; [done|]. by intros p [= <-].
Qed.

Lemma keeps_ret {A} (a : A) : keeps_classes (ret a).
Proof. done. Qed.

Lemma keeps_panic {A} v : keeps_classes (@panic Store A v).
Proof. done. Qed.

Lemma keeps_gets {A} (f : Store -> A) : keeps_classes (gets f).
Proof. done. Qed.

Lemma keeps_bind {A B} (c : M Store A) (k : A -> M Store B) :
  keeps_classes c -> (forall a, keeps_classes (k a)) -> keeps_classes (bind c k).
Proof.
  intros Hc Hk s. unfold bind. specialize (Hc s).
  destruct (c s) as [s' [a|v]]; cbn in *; [|done].
  by rewrite Hk.
Qed.

Lemma keeps_deref {A} (f : Store -> option A) :
  keeps_classes (fun s => deref (f s) s).
Proof. intros s. by destruct (f s). Qed.

Lemma keeps_modify_errs (f : Store -> list Error) :
  keeps_classes (modify (fun s => with_errs (f s) s)).
Proof. done. Qed.

Lemma keeps_make_bytes (f : Store -> Z) :
  keeps_classes (fun s => make_bytes (f s) s).
Proof. intros s. unfold make_bytes. by destruct (f s <? 0). Qed.

Lemma keeps_Error_Is e ec : keeps_classes (Error_Is e ec).
Proof.
  apply keeps_bind; [apply (keeps_deref (fun s => errs s !! e))|].
  intros x. apply keeps_gets.
Qed.

Lemma keeps_Is_any e cl : keeps_classes (Is_any e cl).
Proof.
  induction cl as [|c cl IH]; [apply keeps_ret|].
  apply keeps_bind; [apply keeps_Error_Is|].
  intros []; [apply keeps_ret|apply IH].
Qed.

Lemma keeps_LogWithStack m : keeps_classes (LogWithStack m).
Proof.
  apply keeps_bind; [apply (keeps_make_bytes stackLogSize)|]. intros size.
  apply keeps_bind; [apply keeps_gets|]. by intros buf.
Qed.

Lemma keeps_Wrap e err_ cl : keeps_classes (Wrap e err_ cl).
Proof.
  destruct err_ as [cause|]; [|apply keeps_ret].
  apply keeps_bind.
  - destruct cause as [ec|]; [|apply keeps_ret].
    apply keeps_bind; [apply keeps_Error_Is|].
    intros []; [apply keeps_ret|apply keeps_Is_any].
  - intros []; [apply keeps_ret|].
    apply keeps_bind; [done|]. intros rv.
    apply keeps_bind;
      [apply (keeps_deref (fun s => e ≫= fun a => classes s !! a))|].
    intros c. apply keeps_bind.
    + destruct (0 <? _); [|apply keeps_ret].
      apply keeps_bind; [apply (keeps_make_bytes stackCaptureSize)|].
      intros size. apply keeps_bind; [apply keeps_gets|]. by intros buf.
    + intros _. apply keeps_bind; [|intros; apply keeps_ret].
      destruct (0 <? _); [|apply keeps_ret].
      apply keeps_bind; [|intros; apply keeps_LogWithStack].
      apply (keeps_deref (fun s => error_text (S rv) s (Some (ErrorPtr rv)))).
Qed.

Lemma keeps_ErrorClass_New e msg : keeps_classes (ErrorClass_New e msg).
Proof. apply keeps_bind; [done|]. intros; apply keeps_Wrap. Qed.

Lemma keeps_ErrorClass_NewWith e msg opts :
  keeps_classes (ErrorClass_NewWith e msg opts).
Proof.
  apply keeps_bind; [apply keeps_ErrorClass_New|].
  intros [[rv|]|]; try apply keeps_ret.
  apply keeps_bind; [done|]. intros; apply keeps_ret.
Qed.

Lemma keeps_RecordBefore e d : keeps_classes (RecordBefore e d).
Proof. done. Qed.

Lemma initialised_lookup s c k :
  initialised s -> try.known_classes !! c = Some k -> classes s !! c = Some k.
Proof. intros [rest ->] H. by apply lookup_app_l_Some. Qed.

Lemma initialised_boot : initialised boot.
Proof. exists []. reflexivity. Qed.

Lemma on_chain_lt_parent cs c k a :
  classes_wf cs -> cs !! c = Some k -> on_chain cs (parent k) a -> (a < c)%nat.
Proof.
  intros Hwf Hk Hup.
  destruct (parent k) as [p|] eqn:Hp; [|by apply on_chain_nil in Hup].
  pose proof (Hwf c k p Hk Hp).
  pose proof (on_chain_le cs Hwf _ _ Hup p eq_refl). lia.
Qed.

Lemma ErrorClass_Is_false_above s c a :
  classes_wf (classes s) -> (c < a)%nat ->
  ErrorClass_Is s (Some c) (Some a) = false.
Proof.
  intros Hwf Hlt. apply not_true_is_false. intros H.
  apply ErrorClass_Is_on_chain in H; [|done].
  pose proof (on_chain_le _ Hwf _ _ H c eq_refl). lia.
Qed.

(** C7.  [e.Is(a)] is true exactly when [a] is on the path of parent links
    from [e] to its root.  So every class is itself; in a chain where the
    parent of [C] is [B] and the parent of [B] is [A], [C] is an [A], a [B]
    and a [C], and [A] is not a [C]; and two classes built one after the
    other with the same parent and the same name are two classes, neither
    of which is the other. *)
Theorem Is_follows_parent_links (s : Store) :
  classes_wf (classes s) ->
  (forall e a : option class_ptr,
     ErrorClass_Is s e a = true <->
     exists a', a = Some a' /\ on_chain (classes s) e a') /\
  (forall c : class_ptr, ErrorClass_Is s (Some c) (Some c) = true) /\
  (forall (A B C : class_ptr) (kB kC : ErrorClass),
     classes s !! B = Some kB -> parent kB = Some A ->
     classes s !! C = Some kC -> parent kC = Some B ->
     ErrorClass_Is s (Some C) (Some A) = true /\
     ErrorClass_Is s (Some C) (Some B) = true /\
     ErrorClass_Is s (Some C) (Some C) = true /\
     ErrorClass_Is s (Some A) (Some C) = false) /\
  (forall (ec : option class_ptr) (n : string),
     (or_root ec < length (classes s))%nat ->
     let s1 := fst (New ec n s) in
     let c1 := snd (New ec n s) in
     let s2 := fst (New ec n s1) in
     let c2 := snd (New ec n s1) in
     c1 <> c2 /\
     name <$> classes s2 !! c1 = Some n /\
     name <$> classes s2 !! c2 = Some n /\
     ErrorClass_Is s2 (Some c1) (Some c2) = false /\
     ErrorClass_Is s2 (Some c2) (Some c1) = false).
Proof.
  intros Hwf. split_and!.
  - intros e [a|].
    + rewrite ErrorClass_Is_on_chain by done. split; [eauto|].
      by intros (a' & [= <-] & H).
    + rewrite ErrorClass_Is_nil. split; [done|]. by intros (a' & ? & _).
  - apply ErrorClass_Is_refl.
  - intros A B C kB kC HB HBA HC HCB.
    assert (on_chain (classes s) (Some B) A) as HBA'.
    { apply (chain_up _ B kB A HB). rewrite HBA. apply chain_here. }
    split_and!.
    + apply ErrorClass_Is_on_chain; [done|].
      apply (chain_up _ C kC A HC). by rewrite HCB.
    + apply ErrorClass_Is_on_chain; [done|].
      apply (chain_up _ C kC B HC). rewrite HCB. apply chain_here.
    + apply ErrorClass_Is_refl.
    + apply ErrorClass_Is_false_above; [done|].
      pose proof (Hwf B kB A HB HBA). pose proof (Hwf C kC B HC HCB). lia.
  - intros ec n Hp s1 c1 s2 c2.
    set (k1 := mkErrorClass (Some (or_root ec)) n (flags_of s (or_root ec))).
    set (k2 := mkErrorClass (Some (or_root ec)) n (flags_of s1 (or_root ec))).
    assert (classes s1 = classes s ++ [k1]) as Hs1 by reflexivity.
    assert (classes s2 = classes s1 ++ [k2]) as Hs2 by reflexivity.
    assert (c1 = length (classes s)) as Hc1 by reflexivity.
    assert (c2 = length (classes s1)) as Hc2 by reflexivity.
    assert (length (classes s1) = S (length (classes s))) as Hlen.
    { rewrite Hs1, length_app. cbn. lia. }
    assert (classes_wf (classes s1)) as Hwf1 by by apply New_wf.
    assert (classes_wf (classes s2)) as Hwf2.
    { apply New_wf; [done|]. lia. }
    assert (classes s2 !! c2 = Some k2) as Hl2.
    { rewrite Hs2, Hc2. by apply list_lookup_middle. }
    assert (classes s2 !! c1 = Some k1) as Hl1.
    { rewrite Hs2, lookup_app_l by lia.
      rewrite Hs1, Hc1. by apply list_lookup_middle. }
    split_and!.
    + lia.
    + by rewrite Hl1.
    + by rewrite Hl2.
    + apply ErrorClass_Is_false_above; [done|lia].
    + apply not_true_is_false. intros H.
      apply ErrorClass_Is_on_chain in H; [|done].
      apply on_chain_inv in H as [?|(k & Hk & Hup)]; [lia|].
      rewrite Hl2 in Hk. injection Hk as <-. cbn in Hup.
      pose proof (on_chain_le _ Hwf2 _ _ Hup _ eq_refl). lia.
Qed.

Lemma Is_follows_parent_links_witness :
  classes_wf (classes boot) /\
  ErrorClass_Is boot (Some DNSConfigError) (Some NetworkError) = true /\
  ErrorClass_Is boot (Some NetworkError) (Some DNSConfigError) = false.
Proof.
  assert (classes_wf (classes boot)) as Hwf
    by (apply classes_wfb_sound; vm_compute; reflexivity).
  split; [exact Hwf|].
  destruct (Is_follows_parent_links boot Hwf) as (_ & _ & Hchain & _).
  destruct (Hchain NetworkError DNSError DNSConfigError
              (mkErrorClass (Some NetworkError) "DNS Error" 0)
              (mkErrorClass (Some DNSError) "DNS Config Error" 0)
              eq_refl eq_refl eq_refl eq_refl) as (H1 & _ & _ & H4).
  exact (conj H1 H4).
Defined.




(** *** Wrapping *)

Lemma Error_Is_run s p x ec :
  errs s !! p = Some x ->
  Error_Is p ec s = (s, Ok (ErrorClass_Is s (class x) ec)).
Proof. intros H. unfold Error_Is, bind, deref_error. by rewrite H. Qed.

Lemma Error_Is_nil_pointer s p ec :
  errs s !! p = None -> Error_Is p ec s = (s, Panic nil_dereference).
Proof. intros H. unfold Error_Is, bind, deref_error. by rewrite H. Qed.

Lemma Is_any_run s p x cl :
  errs s !! p = Some x ->
  Is_any p cl s =
  (s, Ok (existsb (fun c => ErrorClass_Is s (class x) c) cl)).
Proof.
  intros H. induction cl as [|c cl IH]; [done|].
  cbn [Is_any existsb]. unfold bind. rewrite (Error_Is_run s p x c H).
  by destruct (ErrorClass_Is s (class x) c).
Qed.

Lemma ErrorClass_Is_classes s s' e a :
  classes s' = classes s -> ErrorClass_Is s' e a = ErrorClass_Is s e a.
Proof. unfold ErrorClass_Is. by intros ->. Qed.

Lemma error_text_S fuel s p :
  error_text (S fuel) s (Some (ErrorPtr p)) =
  (e ← errs s !! p;
   cause_message ← error_text fuel s (err e);
   c ← class e ≫= (fun a => classes s !! a);
   Some (render (name c) cause_message (stack e))).
Proof. reflexivity. Qed.

(** A message that [Error()] returns is still returned once more errors
    are allocated. *)
Lemma error_text_grows s s' fuel v m :
  classes s' = classes s -> errs s `prefix_of` errs s' ->
  error_text fuel s v = Some m -> error_text fuel s' v = Some m.
Proof.
  intros Hc [more He]. revert v m.
  induction fuel as [|fuel IH]; intros [[p|id msg]|] m H; try done.
  rewrite error_text_S in H |- *.
  destruct (errs s !! p) as [x|] eqn:Hx; [|done].
  rewrite He, (lookup_app_l_Some _ _ _ _ Hx). cbn [mbind option_bind] in H |- *.
  destruct (error_text fuel s (err x)) as [cm|] eqn:Hcm; [|done].
  rewrite (IH _ _ Hcm). cbn [mbind option_bind] in H |- *. by rewrite Hc.
Qed.

Lemma error_text_more_fuel s fuel v m :
  error_text fuel s v = Some m -> error_text (S fuel) s v = Some m.
Proof.
  revert v m. induction fuel as [|fuel IH]; intros [[p|id msg]|] m H; try done.
  rewrite error_text_S in H. rewrite error_text_S.
  destruct (errs s !! p) as [x|]; [|done]. cbn [mbind option_bind] in H |- *.
  destruct (error_text fuel s (err x)) as [cm|] eqn:Hcm; [|done].
  by rewrite (IH _ _ Hcm).
Qed.

Lemma make_bytes_run s n :
  0 <= n -> make_bytes n s = (s, Ok (Z.to_nat n)).
Proof. intros H. unfold make_bytes. by rewrite (proj2 (Z.ltb_ge n 0) H). Qed.

Lemma Wrap_nil s e cl : Wrap e None cl s = (s, Ok None).
Proof. done. Qed.

Lemma Wrap_exempted s e cl cause :
  exempted s e cl cause -> Wrap e (Some cause) cl s = (s, Ok (Some cause)).
Proof.
  intros (p & x & -> & Hx & H). unfold Wrap, bind.
  rewrite (Error_Is_run s p x e Hx).
  destruct (ErrorClass_Is s (class x) e) eqn:He; [done|].
  rewrite (Is_any_run s p x cl Hx).
  destruct H as [H|H]; [done|].
  apply Exists_exists in H as (c & Hin & Hc).
  assert (existsb (fun c => ErrorClass_Is s (class x) c) cl = true) as ->; [|done].
  apply existsb_exists. exists c. split; [|done]. by apply list_elem_of_In.
Qed.

Lemma wrappable_run s e cl cause :
  wrappable s e cl cause ->
  match cause with
  | ErrorPtr ec =>
      (b <- Error_Is ec e ;; if b : bool then ret true else Is_any ec cl)%go
  | PlainError _ _ => ret false
  end s = (s, Ok false).
Proof.
  destruct cause as [p|id msg]; [|done].
  intros (x & Hx & He & Hcl). unfold bind.
  rewrite (Error_Is_run s p x e Hx), He, (Is_any_run s p x cl Hx).
  do 2 f_equal. apply not_true_is_false. intros H.
  apply existsb_exists in H as (c & Hin & Hc).
  rewrite Forall_forall in Hcl. apply list_elem_of_In in Hin.
  specialize (Hcl c Hin). congruence.
Qed.
Lemma alter_new_last {A} (f : A -> A) (l : list A) (x : A) :
  alter f (length l) (l ++ [x]) = l ++ [f x].
Proof.
  induction l as [|y l IH]; [done|]. cbn. by rewrite IH.
Qed.

(** The capture of the stack into the error just allocated. *)
Lemma capture_run s0 es x :
  0 <= stackCaptureSize s0 -> errs s0 = es ++ [x] ->
  (size <- (fun s => make_bytes (stackCaptureSize s) s) ;;
   buf <- runtime_Stack size ;;
   set_stack (length es) buf)%go s0 =
  (with_errs (es ++ [mkError (err x) (class x)
                       (Some (take (Z.to_nat (stackCaptureSize s0)) (goroutine s0)))
                       (side x)]) s0, Ok tt).
Proof.
  intros Hsz Hes. unfold bind at 1. rewrite make_bytes_run by done.
  unfold bind, runtime_Stack, gets, set_stack, modify.
  by rewrite Hes, alter_new_last.
Qed.

(** The log line for the error at the end of the store. *)
Lemma log_run s1 es x c m :
  errs s1 = es ++ [x] ->
  class x ≫= (fun a => classes s1 !! a) = Some c ->
  error_text (length es) s1 (err x) = Some m ->
  0 <= stackLogSize s1 ->
  exists s2,
    (message <- Error_Error (length es) ;; LogWithStack message)%go s1 = (s2, Ok tt) /\
    errs s2 = errs s1 /\ classes s2 = classes s1.
Proof.
  intros Hes Hc Hm Hsz. unfold bind at 1, Error_Error.
  rewrite error_text_S, Hes, list_lookup_middle by done.
  cbn [mbind option_bind]. rewrite <- Hes, Hm. cbn [mbind option_bind].
  rewrite Hc. cbn [mbind option_bind deref ret].
  unfold LogWithStack. unfold bind at 1. rewrite make_bytes_run by done.
  unfold bind, runtime_Stack, gets, modify. eexists. split; [reflexivity|done].
Qed.

Lemma Wrap_wraps s e c cl cause :
  classes s !! e = Some c ->
  wrappable s (Some e) cl cause ->
  can_wrap s c cause ->
  exists s',
    Wrap (Some e) (Some cause) cl s = (s', Ok (Some (ErrorPtr (length (errs s))))) /\
    errs s' = errs s ++ [mkError (Some cause) (Some e) (captured s (flags c)) no_side] /\
    classes s' = classes s.
Proof.
  intros Hc Hw [Hcap Hlog].
  unfold Wrap. unfold bind at 1. rewrite (wrappable_run s (Some e) cl cause Hw).
  unfold bind at 1. unfold alloc_error at 1.
  unfold bind at 1. unfold deref_class at 1. cbn [mbind option_bind classes with_errs].
  rewrite Hc. cbn [deref ret].
  set (x0 := mkError (Some cause) (Some e) None no_side).
  set (x1 := mkError (Some cause) (Some e) (captured s (flags c)) no_side).
  assert (exists s1,
    (if 0 <? flags_and (flags c) CaptureStack
     then size <- (fun s => make_bytes (stackCaptureSize s) s) ;;
          buf <- runtime_Stack size ;; set_stack (length (errs s)) buf
     else ret tt)%go (with_errs (errs s ++ [x0]) s) = (s1, Ok tt) /\
    s1 = with_errs (errs s ++ [x1]) s) as (s1 & Hrun1 & Hs1).
  { unfold x1, captured. destruct (0 <? flags_and (flags c) CaptureStack).
    - eexists. split; [|reflexivity].
      by rewrite (capture_run (with_errs (errs s ++ [x0]) s) (errs s) x0
                    (Hcap eq_refl) eq_refl).
    - eexists. split; reflexivity. }
  unfold bind at 1. rewrite Hrun1.
  assert (exists s2,
    (if 0 <? flags_and (flags c) LogOnCreation
     then message <- Error_Error (length (errs s)) ;; LogWithStack message
     else ret tt)%go s1 = (s2, Ok tt) /\
    errs s2 = errs s1 /\ classes s2 = classes s1) as (s2 & Hrun2 & He2 & Hc2).
  { destruct (0 <? flags_and (flags c) LogOnCreation); [|by eexists].
    destruct (Hlog eq_refl) as [Hsz [m Hm]].
    apply (log_run s1 (errs s) x1 c m).
    - by rewrite Hs1.
    - by rewrite Hs1.
    - apply (error_text_grows s); [by rewrite Hs1| |done].
      rewrite Hs1. by eexists.
    - by rewrite Hs1. }
  unfold bind at 1. rewrite Hrun2. exists s2. split; [done|].
  rewrite He2, Hc2, Hs1. done.
Qed.

(** Every non-nil cause is handed back, wrapped, or a nil [*Error]. *)
Lemma cause_cases s e cl cause :
  exempted s e cl cause \/ wrappable s e cl cause \/
  exists p, cause = ErrorPtr p /\ errs s !! p = None.
Proof.
  destruct cause as [p|id msg]; [|right; left; exact I].
  destruct (errs s !! p) as [x|] eqn:Hx; [|right; right; eauto].
  destruct (ErrorClass_Is s (class x) e) eqn:He.
  { left. exists p, x. eauto. }
  destruct (decide (Exists (fun c => ErrorClass_Is s (class x) c = true) cl))
    as [Hex|Hno].
  { left. exists p, x. eauto. }
  right; left. exists x. split_and!; [done..|].
  apply Forall_forall. intros c Hin. apply not_true_is_false. intros Hc.
  apply Hno, Exists_exists. eauto.
Qed.

(** C6.  [Wrap] returns nil for a nil cause.  It returns the cause itself,
    the store being exactly what it was, when the cause is a classified
    error whose class is the wrapping class or one of the exempted ones, up
    the parent links.  For any other cause it returns a new error, at an
    address that was free, whose cause is the one given and whose class is
    the wrapping class. *)
Theorem Wrap_nil_same_or_new (s : Store) (e : option class_ptr)
    (cl : list (option class_ptr)) :
  Wrap e None cl s = (s, Ok None) /\
  (forall cause, exempted s e cl cause ->
     Wrap e (Some cause) cl s = (s, Ok (Some cause))) /\
  (forall a c cause,
     e = Some a -> classes s !! a = Some c ->
     wrappable s e cl cause -> can_wrap s c cause ->
     exists s',
       Wrap e (Some cause) cl s =
         (s', Ok (Some (ErrorPtr (length (errs s))))) /\
       errs s !! length (errs s) = None /\
       errs s' = errs s ++ [mkError (Some cause) e (captured s (flags c)) no_side] /\
       classes s' = classes s).
Proof.
  split_and!.
  - apply Wrap_nil.
  - apply Wrap_exempted.
  - intros a c cause -> Hc Hw Hcan.
    destruct (Wrap_wraps s a c cl cause Hc Hw Hcan) as (s' & Hrun & He & Hcl).
    exists s'. split_and!; [done| |done..].
    by apply lookup_ge_None_2.
Qed.

Lemma Wrap_nil_same_or_new_witness :
  classes boot !! ProgrammerError =
    Some (mkErrorClass (Some HierarchicalError) "Programmer Error" 3) /\
  wrappable boot (Some ProgrammerError) [] (PlainError 7 "boom") /\
  can_wrap boot (mkErrorClass (Some HierarchicalError) "Programmer Error" 3)
           (PlainError 7 "boom") /\
  exists s',
    Wrap (Some ProgrammerError) (Some (PlainError 7 "boom")) [] boot =
      (s', Ok (Some (ErrorPtr 0%nat))) /\
    errs s' = [mkError (Some (PlainError 7 "boom")) (Some ProgrammerError)
                       (Some []) no_side].
Proof.
  assert (can_wrap boot
            (mkErrorClass (Some HierarchicalError) "Programmer Error" 3)
            (PlainError 7 "boom")) as Hcan.
  { split; intros _; [vm_compute; discriminate|].
    split; [vm_compute; discriminate|]. eexists. reflexivity. }
  split_and!; [reflexivity|exact I|exact Hcan|].
  destruct (Wrap_nil_same_or_new boot (Some ProgrammerError) [])
    as (_ & _ & Hnew).
  destruct (Hnew ProgrammerError _ (PlainError 7 "boom")
              eq_refl eq_refl I Hcan) as (s' & Hrun & _ & He & _).
  exists s'. split; [exact Hrun|exact He].
Defined.
(** *** The text of an error *)

Lemma append_cons x (a b : string) : String x a +:+ b = String x (a +:+ b).
Proof. reflexivity. Qed.

Lemma append_empty_l (b : string) : EmptyString +:+ b = b.
Proof. reflexivity. Qed.

Lemma append_assoc (a b c : string) : (a +:+ b) +:+ c = a +:+ (b +:+ c).
Proof.
  induction a as [|x a IH]; [done|]. by rewrite !append_cons, IH.
Qed.

Lemma append_empty_r (a : string) : a +:+ EmptyString = a.
Proof.
  induction a as [|x a IH]; [done|]. by rewrite append_cons, IH.
Qed.

Lemma prefix_newline c s :
  String.prefix newline (String c s) = bool_decide (c = nl).
Proof.
  cbn. destruct (ascii_dec _ c) as [<-|Hne].
  - by destruct s.
  - symmetry. apply bool_decide_eq_false. intros ->. by apply Hne.
Qed.

Lemma Contains_newline s :
  strings.Contains s newline = negb (bool_decide (single_line s)).
Proof.
  unfold single_line. induction s as [|c s IH].
  { cbn. symmetry. apply negb_false_iff, bool_decide_eq_true. apply not_elem_of_nil. }
  cbn [strings.Contains]. rewrite prefix_newline, IH. cbn [list_ascii_of_string].
  destruct (decide (c = nl)) as [->|Hne].
  - rewrite bool_decide_eq_true_2 by done. cbn.
    symmetry. apply negb_true_iff, bool_decide_eq_false. intros H. apply H. by left.
  - rewrite (bool_decide_eq_false_2 (c = nl)) by done. cbn. f_equal.
    apply bool_decide_ext. rewrite not_elem_of_cons. split; [|by intros [_ ?]].
    intros H. split; [congruence|done].
Qed.

Lemma replace_newline_cons c s new :
  strings.replace_from 0 (String c s) newline new =
  if decide (c = nl) then new +:+ strings.replace_from 0 s newline new
  else String c (strings.replace_from 0 s newline new).
Proof.
  cbn [strings.replace_from]. rewrite prefix_newline.
  destruct (decide (c = nl)) as [->|Hne].
  - by rewrite bool_decide_eq_true_2.
  - by rewrite bool_decide_eq_false_2.
Qed.

Lemma split_lines_nonempty s : split_lines s <> [].
Proof.
  destruct s as [|c s]; [done|]. cbn.
  destruct (decide (c = nl)); [done|]. by destruct (split_lines s).
Qed.

(** Replacing every newline by a newline and two spaces is putting two
    spaces before every line but the first. *)
Lemma replace_newline_lines s :
  exists l ls,
    split_lines s = l :: ls /\
    strings.ReplaceAll s newline (newline +:+ "  ") =
    l +:+ foldr String.append EmptyString
                (map (fun l => newline +:+ "  " +:+ l) ls).
Proof.
  change (strings.ReplaceAll s newline (newline +:+ "  "))
    with (strings.replace_from 0 s newline (newline +:+ "  ")).
  induction s as [|c s (l & ls & Hs & IH)].
  { by exists EmptyString, []. }
  rewrite replace_newline_cons. cbn [split_lines].
  destruct (decide (c = nl)) as [->|Hne].
  - exists EmptyString, (l :: ls). split; [by rewrite Hs|].
    rewrite IH. cbn [map foldr]. by rewrite append_empty_l, !append_assoc.
  - rewrite Hs. exists (String c l), ls. split; [done|].
    by rewrite IH, append_cons.
Qed.

Lemma indented_replace class_name message :
  class_name +:+ ":" +:+ newline +:+ "  "
    +:+ strings.ReplaceAll message newline (newline +:+ "  ") =
  indented class_name message.
Proof.
  unfold indented.
  destruct (replace_newline_lines message) as (l & ls & -> & ->).
  cbn [map foldr]. by rewrite !append_assoc.
Qed.

(** [render] writes the trimmed message in the format. *)
Lemma render_format class_name cause_message stack_ :
  render class_name cause_message stack_ =
  Error_format class_name
    (strings.TrimRight cause_message (newline +:+ " ")) stack_.
Proof.
  unfold render, Error_format.
  rewrite Contains_newline, indented_replace.
  by destruct (bool_decide (single_line _)).
Qed.

Lemma in_cutset_blank c : strings.in_cutset c (newline +:+ " ") = true <-> blank c.
Proof.
  unfold strings.in_cutset, blank. rewrite bool_decide_eq_true.
  change (list_ascii_of_string (newline +:+ " ")) with [nl; " "%char].
  rewrite !elem_of_cons, elem_of_nil. unfold nl. tauto.
Qed.

(** What [TrimRight] cuts off is blanks, and what it leaves does not end
    in one. *)
Lemma TrimRight_blanks s :
  exists tail,
    s = strings.TrimRight s (newline +:+ " ") +:+ tail /\
    blanks tail /\
    ends_clean (strings.TrimRight s (newline +:+ " ")).
Proof.
  induction s as [|c s (tail & Hs & Htail & Hclean)].
  { exists EmptyString. split_and!; [done|constructor|].
    intros t c H. by destruct t. }
  cbn [strings.TrimRight].
  destruct (strings.TrimRight s (newline +:+ " ")) as [|d t] eqn:Ht.
  - destruct (strings.in_cutset c (newline +:+ " ")) eqn:Hc.
    + exists (String c s). split_and!; [done| |].
      * rewrite append_empty_l in Hs. subst tail.
        constructor; [by apply in_cutset_blank|done].
      * intros t' c' H. by destruct t'.
    + exists s. split_and!.
      * rewrite append_empty_l in Hs. by rewrite append_cons, append_empty_l.
      * rewrite append_empty_l in Hs. by subst tail.
      * intros t' c' H Hb. destruct t' as [|x [|y t']]; rewrite ?append_cons in H.
        -- injection H as <-. apply in_cutset_blank in Hb. congruence.
        -- by injection H.
        -- by injection H.
  - exists tail. split_and!; [by rewrite append_cons, <- Hs|done|].
    intros t' c' H. destruct t' as [|x t']; rewrite ?append_cons in H.
    + rewrite append_empty_l in H. by injection H.
    + injection H as -> H. by apply (Hclean t' c').
Qed.

(** A message that does not end in a blank is left as it is. *)
Lemma TrimRight_clean s :
  ends_clean s -> strings.TrimRight s (newline +:+ " ") = s.
Proof.
  induction s as [|c s IH]; [done|]. intros Hclean.
  cbn [strings.TrimRight]. rewrite IH.
  - destruct s as [|d s]; [|done].
    destruct (strings.in_cutset c (newline +:+ " ")) eqn:Hc; [|done].
    apply in_cutset_blank in Hc. by destruct (Hclean EmptyString c).
  - intros t c' ->. apply (Hclean (String c t) c'). by rewrite append_cons.
Qed.

Lemma Error_Error_run s p x c m :
  errs s !! p = Some x ->
  class x ≫= (fun a => classes s !! a) = Some c ->
  error_text p s (err x) = Some m ->
  Error_Error p s = (s, Ok (render (name c) m (stack x))).
Proof.
  intros Hx Hc Hm. unfold Error_Error.
  rewrite error_text_S, Hx. cbn [mbind option_bind].
  rewrite Hm. cbn [mbind option_bind]. by rewrite Hc.
Qed.

(** C9, amended.  The text of an error is made from the message of its
    cause without the newlines and spaces that end it: the class name, a
    colon, a space and that message when it is on one line; the class name
    and a colon, and below them every line of the message two spaces in,
    when it has several; and after either, when the error has a stack, an
    empty line and the class name, [backtrace:] and the bytes of the
    stack.  A message that ends in neither a newline nor a space is taken
    whole. *)
Theorem Error_text_format (s : Store) (p : error_ptr) (x : Error)
    (c : ErrorClass) (m : string) :
  errs s !! p = Some x ->
  class x ≫= (fun a => classes s !! a) = Some c ->
  error_text p s (err x) = Some m ->
  exists message tail,
    m = message +:+ tail /\ blanks tail /\ ends_clean message /\
    (ends_clean m -> message = m) /\
    Error_Error p s = (s, Ok (Error_format (name c) message (stack x))).
Proof.
  intros Hx Hc Hm.
  destruct (TrimRight_blanks m) as (tail & Hsplit & Htail & Hclean).
  exists (strings.TrimRight m (newline +:+ " ")), tail.
  split_and!; [done..|apply TrimRight_clean|].
  rewrite (Error_Error_run s p x c m Hx Hc Hm). by rewrite render_format.
Qed.

Lemma Error_text_format_witness :
  errs (one_error ("a" +:+ newline +:+ "b" +:+ newline) (Some [])) !! 0%nat =
    Some (mkError (Some (PlainError 1 ("a" +:+ newline +:+ "b" +:+ newline)))
                  (Some HierarchicalError) (Some []) no_side) /\
  exists message tail,
    "a" +:+ newline +:+ "b" +:+ newline = message +:+ tail /\
    Error_Error 0%nat (one_error ("a" +:+ newline +:+ "b" +:+ newline) (Some [])) =
      (one_error ("a" +:+ newline +:+ "b" +:+ newline) (Some []),
       Ok (Error_format "Error" message (Some []))).
Proof.
  split; [reflexivity|].
  destruct (Error_text_format
              (one_error ("a" +:+ newline +:+ "b" +:+ newline) (Some []))
              0%nat _ (mkErrorClass None "Error" CaptureStack)
              ("a" +:+ newline +:+ "b" +:+ newline)
              eq_refl eq_refl eq_refl)
    as (message & tail & Hsplit & _ & _ & _ & Hrun).
  exists message, tail. split; [exact Hsplit|exact Hrun].
Defined.

(** C9 as it is written fails for a message on one line that ends in a
    space: the text does not have the space. *)
Lemma Error_text_drops_trailing_space :
  single_line "boom " /\
  Error_Error 0%nat (one_error "boom " None) =
    (one_error "boom " None, Ok "Error: boom") /\
  "Error: boom" <> "Error" +:+ ": " +:+ "boom ".
Proof.
  split_and!.
  - apply (bool_decide_unpack _). vm_compute. reflexivity.
  - vm_compute. reflexivity.
  - vm_compute. discriminate.
Qed.
Lemma error_text_plain fuel st id msg :
  error_text fuel st (Some (PlainError id msg)) = Some msg.
Proof. by destruct fuel. Qed.

(** [New] of a class that is allocated makes a new error around a new
    plain error. *)
Lemma ErrorClass_New_run st a c msg :
  classes st !! a = Some c ->
  can_wrap st c (PlainError (S (plain_errors st)) msg) ->
  exists st',
    ErrorClass_New (Some a) msg st =
      (st', Ok (Some (ErrorPtr (length (errs st))))) /\
    errs st' = errs st ++ [mkError (Some (PlainError (S (plain_errors st)) msg))
                                   (Some a) (captured st (flags c)) no_side] /\
    classes st' = classes st.
Proof.
  intros Hc Hcan. unfold ErrorClass_New, bind at 1, Errorf.
  destruct (Wrap_wraps (with_plain_errors (S (plain_errors st)) st) a c []
              (PlainError (S (plain_errors st)) msg) Hc I)
    as (st' & Hrun & He & Hcl).
  { destruct Hcan as [Hcap Hlog]. split; [exact Hcap|].
    intros Hl. destruct (Hlog Hl) as [Hsz _]. split; [exact Hsz|].
    rewrite error_text_plain. by eexists. }
  exists st'. by rewrite Hrun.
Qed.

Lemma ErrorClass_NewWith_run st a c msg opts :
  classes st !! a = Some c ->
  can_wrap st c (PlainError (S (plain_errors st)) msg) ->
  exists st',
    ErrorClass_NewWith (Some a) msg opts st =
      (st', Ok (Some (ErrorPtr (length (errs st))))) /\
    errs st' =
      errs st ++ [foldl (fun x o => o x)
                    (mkError (Some (PlainError (S (plain_errors st)) msg))
                             (Some a) (captured st (flags c)) no_side) opts] /\
    classes st' = classes st.
Proof.
  intros Hc Hcan.
  destruct (ErrorClass_New_run st a c msg Hc Hcan) as (st1 & Hrun & He & Hcl).
  unfold ErrorClass_NewWith, bind at 1. rewrite Hrun.
  unfold bind, modify, ret. eexists. split; [reflexivity|].
  cbn [errs classes with_errs]. by rewrite He, alter_new_last.
Qed.

(** ** Plans *)

Section Plans.

Context {W : Type}.
Implicit Types (p : Plan W) (s : State W) (c : check W).

Lemma find_first_at {A} (P : A -> bool) (l : list A) i a :
  first_at P l i a -> find P l = Some a.
Proof.
  revert i. induction l as [|b l IH]; intros i (Hi & HP & Hbefore); [done|].
  destruct i as [|i]; cbn in Hi |- *.
  - injection Hi as ->. by rewrite HP.
  - rewrite (Hbefore 0%nat b) by (done || lia).
    apply (IH i). split_and!; [done..|].
    intros j b' Hj Hb'. apply (Hbefore (S j)); [lia|done].
Qed.

Lemma find_none_of {A} (P : A -> bool) (l : list A) :
  none_of P l -> find P l = None.
Proof.
  induction l as [|b l IH]; intros Hnone; [done|]. cbn.
  rewrite (Hnone b) by by left. apply IH. intros a Ha. apply Hnone. by right.
Qed.

Lemma find_agree {A} (P Q : A -> bool) (l : list A) :
  (forall a, P a = Q a) -> find P l = find Q l.
Proof.
  intros H. induction l as [|b l IH]; [done|]. cbn. by rewrite H, IH.
Qed.

Lemma find_first_or_none {A} (P : A -> bool) (l : list A) :
  (exists i a, first_at P l i a) \/ none_of P l.
Proof.
  induction l as [|b l IH].
  { right. intros a Ha. by apply elem_of_nil in Ha. }
  destruct (P b) eqn:Hb.
  { left. exists 0%nat, b. split_and!; [done..|]. intros; lia. }
  destruct IH as [(i & a & Hi & Ha & Hbefore)|Hnone].
  - left. exists (S i), a. split_and!; [done..|].
    intros [|j] b' Hj Hb'; cbn in Hb'; [by injection Hb' as <-|].
    apply (Hbefore j); [lia|done].
  - right. intros a [->|Ha]%elem_of_cons; [done|by apply Hnone].
Qed.

(** The deferred function of [Done], once [main] has ended. *)
Lemma Done_eq p s :
  Done p s =
  let s1 := fst (call (main p) tt s) in
  let rec := recovered (snd (call (main p) tt s)) in
  let d := dispatch p rec (s1, false) in
  finish p rec (fst (fst d)) (snd (fst d)) (snd d).
Proof.
  unfold Done, defer_recover, var_consumed, defer_, finish.
  destruct (call (main p) tt s) as [s1 [[]|v]]; cbn [fst snd recovered].
  - destruct (dispatch p None (s1, false)) as [[s2 b] r2]. cbn [fst snd].
    unfold bind at 1. unfold outer at 1. cbn [fst snd].
    destruct (call (finally p) tt s2) as [s3 [[]|v3]]; [|done].
    unfold bind, consumed, gets. cbn [snd]. by destruct b.
  - destruct (dispatch p v (s1, false)) as [[s2 b] r2]. cbn [fst snd].
    unfold bind at 1. unfold outer at 1. cbn [fst snd].
    destruct (call (finally p) tt s2) as [s3 [[]|v3]]; [|done].
    unfold bind, consumed, gets. cbn [snd]. by destruct b.
Qed.

Lemma in_store_Error_Is s e x m :
  errs (store s) !! e = Some x ->
  in_store (Error_Is e m) s = (s, Ok (ErrorClass_Is (store s) (class x) m)).
Proof.
  intros Hx. unfold in_store. rewrite (Error_Is_run _ e x m Hx). by destruct s.
Qed.

Lemma set_consumed_then {A} (k : M Frame A) s b :
  (set_consumed true ;; k)%go (s, b) = k (s, true).
Proof. reflexivity. Qed.

Lemma outer_run {A} (k : M (State W) A) s b :
  outer k (s, b) = ((fst (k s), b), snd (k s)).
Proof. unfold outer. cbn [fst snd]. by destruct (k s). Qed.

(** The loop over the entries for a fault that is a [*Error]. *)
Lemma catch_classified_run e x cs s b :
  errs (store s) !! e = Some x ->
  catch_classified e cs (s, b) =
  match find (catches (store s) (class x)) cs with
  | Some c => ((fst (invoke c e s), true), snd (invoke c e s))
  | None => ((s, b), Ok tt)
  end.
Proof.
  intros Hx. induction cs as [|c cs IH]; [done|].
  cbn [catch_classified find]. unfold catches at 1, wildcard at 1.
  destruct (decide (match_ c = None)) as [Hw|Hw].
  - rewrite (bool_decide_eq_true_2 _ Hw). cbn [orb].
    unfold invoke, wildcard. rewrite (bool_decide_eq_true_2 _ Hw).
    by rewrite set_consumed_then, outer_run.
  - rewrite (bool_decide_eq_false_2 _ Hw). cbn [orb].
    unfold bind at 1. rewrite outer_run, (in_store_Error_Is s e x _ Hx).
    cbn [fst snd].
    destruct (ErrorClass_Is (store s) (class x) (match_ c)); [|apply IH].
    unfold invoke, wildcard. rewrite (bool_decide_eq_false_2 _ Hw).
    by rewrite set_consumed_then, outer_run.
Qed.

(** The loop over the entries for a fault that is an [error] of another
    type. *)
Lemma catch_plain_run (err_ : error) cs s b :
  catch_plain err_ cs (s, b) =
  match find wildcard cs with
  | Some c => ((fst (call (anyhandler c) (Some err_) s), true),
               snd (call (anyhandler c) (Some err_) s))
  | None => ((s, b), Ok tt)
  end.
Proof.
  induction cs as [|c cs IH]; [done|].
  cbn [catch_plain find]. unfold wildcard at 1.
  destruct (decide (match_ c = None)) as [Hw|Hw].
  - rewrite (bool_decide_eq_true_2 _ Hw).
    by rewrite set_consumed_then, outer_run.
  - rewrite (bool_decide_eq_false_2 _ Hw). apply IH.
Qed.

Lemma noted_store e s :
  store (noted e s) =
  with_errs
    (alter (fun x => mkError (err x) (class x) (stack x)
                             (mkSide (data (side x))
                                     (exits (side x) ++ [frames (store s) 3%nat])))
           e (errs (store s))) (store s).
Proof. reflexivity. Qed.

Lemma noted_world e s : world (noted e s) = world s.
Proof. reflexivity. Qed.

Lemma noted_classes e s : classes (store (noted e s)) = classes (store s).
Proof. reflexivity. Qed.

Lemma noted_lookup e s x :
  errs (store s) !! e = Some x ->
  errs (store (noted e s)) !! e =
  Some (mkError (err x) (class x) (stack x)
          (mkSide (data (side x)) (exits (side x) ++ [frames (store s) 3%nat]))).
Proof.
  intros Hx. rewrite noted_store. cbn [errs with_errs].
  by rewrite list_lookup_alter_eq, Hx.
Qed.

(** The switch on the type of what was recovered. *)
Lemma dispatch_classified p e x s :
  errs (store s) !! e = Some x ->
  dispatch p (Some (ErrV (ErrorPtr e))) (s, false) =
  match find (catches (store s) (class x)) (catch p) with
  | Some c => ((fst (invoke c e (noted e s)), true),
               snd (invoke c e (noted e s)))
  | None => ((noted e s, false), Ok tt)
  end.
Proof.
  intros Hx. cbn [dispatch]. unfold bind at 1. rewrite outer_run.
  cbn [fst snd].
  change (fst (in_store (RecordBefore e 3) s)) with (noted e s).
  rewrite (catch_classified_run e _ (catch p) (noted e s) false
             (noted_lookup e s x Hx)).
  cbn [class].
  assert (forall c : check W,
            catches (store (noted e s)) (class x) c =
            catches (store s) (class x) c) as Hsame.
  { intros c. reflexivity. }
  by rewrite (find_agree _ _ (catch p) Hsame).
Qed.


Lemma dispatch_plain p id msg s :
  dispatch p (Some (ErrV (PlainError id msg))) (s, false) =
  match find wildcard (catch p) with
  | Some c => ((fst (call (anyhandler c) (Some (PlainError id msg)) s), true),
               snd (call (anyhandler c) (Some (PlainError id msg)) s))
  | None => ((s, false), Ok tt)
  end.
Proof. apply catch_plain_run. Qed.

Lemma catches_Is_nonnil st cls c :
  ErrorClass_Is st cls (match_ c) = true -> wildcard c = false.
Proof.
  intros H. unfold wildcard. apply bool_decide_eq_false. intros Hn.
  by rewrite Hn, ErrorClass_Is_nil in H.
Qed.

(** C1.  When the block ends in a fault whose payload is a classified
    error, [Done] goes through the entries in the order they were
    registered and calls one handler, that of the first entry that is the
    wildcard or whose class the error is, up the parent links; with no such
    entry it calls none.  After [Catch(Y)], [Catch(X)] and [CatchAll], and
    for an error that is a [Y], the handler of [Y] is the one called,
    whatever [X] is. *)
Theorem Done_first_match_wins p s e x :
  snd (call (main p) tt s) = Panic (Some (ErrV (ErrorPtr e))) ->
  errs (store (fst (call (main p) tt s))) !! e = Some x ->
  let s1 := fst (call (main p) tt s) in
  let rec := Some (ErrV (ErrorPtr e)) in
  (forall i c,
     first_at (catches (store s1) (class x)) (catch p) i c ->
     Done p s = finish p rec (fst (invoke c e (noted e s1))) true
                             (snd (invoke c e (noted e s1)))) /\
  (none_of (catches (store s1) (class x)) (catch p) ->
     Done p s = finish p rec (noted e s1) false (Ok tt)) /\
  (forall Y X hY hX hA,
     catch p = [mkCheck Y hY None; mkCheck X hX None; mkCheck None None hA] ->
     ErrorClass_Is (store s1) (class x) Y = true ->
     Done p s = finish p rec (fst (call hY e (noted e s1))) true
                             (snd (call hY e (noted e s1)))).
Proof.
  intros Hmain Hx s1 rec.
  assert (Done p s = finish p rec
            (fst (fst (dispatch p rec (s1, false))))
            (snd (fst (dispatch p rec (s1, false))))
            (snd (dispatch p rec (s1, false)))) as HDone.
  { rewrite Done_eq. cbn zeta. fold s1. by rewrite Hmain. }
  unfold rec in HDone at 2 3 4. rewrite (dispatch_classified p e x s1 Hx) in HDone.
  assert (forall i c,
     first_at (catches (store s1) (class x)) (catch p) i c ->
     Done p s = finish p rec (fst (invoke c e (noted e s1))) true
                             (snd (invoke c e (noted e s1)))) as Hfirst.
  { intros i c Hfirst. by rewrite (find_first_at _ _ i c Hfirst) in HDone. }
  split_and!.
  - exact Hfirst.
  - intros Hnone. by rewrite (find_none_of _ _ Hnone) in HDone.
  - intros Y X hY hX hA Hcatch HY.
    rewrite (Hfirst 0%nat (mkCheck Y hY None)).
    + unfold invoke.
      by rewrite (catches_Is_nonnil (store s1) (class x) (mkCheck Y hY None) HY).
    + split_and!.
      * by rewrite Hcatch.
      * unfold catches. cbn [match_]. by rewrite HY, orb_true_r.
      * intros j b Hj. lia.
Qed.

(** C3.  When the block ends in a fault whose payload is an error that is
    not a classified one, [Done] passes over every typed entry and calls
    the handler of the first wildcard entry with that very value; with no
    wildcard entry it calls nothing, makes nothing, and after [finally] has
    returned raises the same value again. *)
Theorem Done_plain_error p s id msg :
  snd (call (main p) tt s) = Panic (Some (ErrV (PlainError id msg))) ->
  let s1 := fst (call (main p) tt s) in
  let rec := Some (ErrV (PlainError id msg)) in
  (forall i c,
     first_at wildcard (catch p) i c ->
     Done p s =
     finish p rec (fst (call (anyhandler c) (Some (PlainError id msg)) s1)) true
                  (snd (call (anyhandler c) (Some (PlainError id msg)) s1))) /\
  (none_of wildcard (catch p) ->
     Done p s = finish p rec s1 false (Ok tt) /\
     forall s3, call (finally p) tt s1 = (s3, Ok tt) ->
                Done p s = (s3, Panic rec)).
Proof.
  intros Hmain s1 rec.
  assert (Done p s = finish p rec
            (fst (fst (dispatch p rec (s1, false))))
            (snd (fst (dispatch p rec (s1, false))))
            (snd (dispatch p rec (s1, false)))) as HDone.
  { rewrite Done_eq. cbn zeta. fold s1. by rewrite Hmain. }
  unfold rec in HDone at 2 3 4. rewrite dispatch_plain in HDone.
  split.
  - intros i c Hfirst. by rewrite (find_first_at _ _ i c Hfirst) in HDone.
  - intros Hnone. rewrite (find_none_of _ _ Hnone) in HDone.
    split; [done|]. intros s3 Hfin. rewrite HDone. unfold finish.
    cbn [fst snd]. by rewrite Hfin.
Qed.

(** C10.  A fault with a nil payload is, for [Done], a return: [Done] ends
    as its call of [finally] ends, from the state in which the block left
    the program, whatever the entries are; so a plan with the same
    [finally] whose block returns in that state ends the same way. *)
Theorem Done_nil_fault_absorbed p s :
  snd (call (main p) tt s) = Panic None ->
  let s1 := fst (call (main p) tt s) in
  Done p s = call (finally p) tt s1 /\
  (forall s3, call (finally p) tt s1 = (s3, Ok tt) -> Done p s = (s3, Ok tt)) /\
  (forall q, call (main q) tt s = (s1, Ok tt) -> finally q = finally p ->
             Done q s = Done p s).
Proof.
  intros Hmain s1.
  assert (forall q, recovered (snd (call (main q) tt s)) = None ->
            Done q s = call (finally q) tt (fst (call (main q) tt s))) as Hnil.
  { intros q Hq. rewrite Done_eq. cbn zeta. rewrite Hq. cbn [dispatch].
    unfold set_consumed, modify, finish. cbn [fst snd].
    by destruct (call (finally q) tt _) as [s3 [[]|v]]. }
  split_and!.
  - apply Hnil. by rewrite Hmain.
  - intros s3 Hfin. rewrite Hnil by by rewrite Hmain. exact Hfin.
  - intros q Hq Hfin. rewrite !Hnil.
    + by rewrite Hq, Hfin.
    + by rewrite Hmain.
    + by rewrite Hq.
Qed.


(** C2.  Whatever the block and the handlers did, [Done] then calls
    [finally], once: the state [s2] it is called in and the outcome [r2] of
    the handler are reached without it.  If [finally] raises a fault, that
    fault is the outcome of [Done]; if it returns and a handler had raised
    a fault, the handler's fault is; in both cases the fault of the block is
    gone.  [Finally] puts the new callback before the ones registered so
    far. *)
Theorem finally_runs_once p s :
  let s1 := fst (call (main p) tt s) in
  let rec := recovered (snd (call (main p) tt s)) in
  let d := dispatch (mkPlan (main p) (catch p) None) rec (s1, false) in
  let s2 := fst (fst d) in
  let b := snd (fst d) in
  let r2 := snd d in
  Done p s = finish p rec s2 b r2 /\
  (forall s3 v, call (finally p) tt s2 = (s3, Panic v) ->
                Done p s = (s3, Panic v)) /\
  (forall s3, call (finally p) tt s2 = (s3, Ok tt) ->
              Done p s = (s3, if b then r2 else Panic rec)) /\
  (forall s3 v, call (finally p) tt s2 = (s3, Ok tt) ->
                b = true -> r2 = Panic v -> Done p s = (s3, Panic v)) /\
  (forall id msg i c s2' v s3,
     rec = Some (ErrV (PlainError id msg)) ->
     first_at wildcard (catch p) i c ->
     call (anyhandler c) (Some (PlainError id msg)) s1 = (s2', Panic v) ->
     call (finally p) tt s2' = (s3, Ok tt) ->
     Done p s = (s3, Panic v)) /\
  (forall f q s0,
     call (finally (Finally f q)) tt s0 =
     (call f tt ;; call (finally q) tt)%go s0) /\
  (forall f s0, call (finally (Do f)) tt s0 = (s0, Ok tt)).
Proof.
  intros s1 rec d s2 b r2.
  assert (Done p s = finish p rec s2 b r2) as HDone by apply Done_eq.
  split_and!; try done.
  - intros s3 v Hfin. rewrite HDone. unfold finish. by rewrite Hfin.
  - intros s3 Hfin. rewrite HDone. unfold finish. by rewrite Hfin.
  - intros s3 v Hfin Hb Hr. rewrite HDone. unfold finish.
    by rewrite Hfin, Hb, Hr.
  - intros id msg i c s2' v s3 Hrec Hfirst Hh Hfin. rewrite HDone.
    unfold s2, b, r2, d. rewrite Hrec, dispatch_plain. cbn [catch].
    rewrite (find_first_at _ _ i c Hfirst), Hh. cbn [fst snd].
    unfold finish. by rewrite Hfin.
Qed.


Lemma wrap_unknown_run st d :
  initialised st -> 0 <= stackCaptureSize st ->
  exists st',
    wrap_unknown d st = (st', Ok (Some (ErrorPtr (length (errs st))))) /\
    errs st' = errs st ++ [unknown_fault st d] /\
    classes st' = classes st.
Proof.
  intros Hinit Hsz.
  destruct (ErrorClass_NewWith_run st UnknownPanicError
              (mkErrorClass (Some HierarchicalError) "Unknown Error" CaptureStack)
              (Sprint d) [SetData OriginalErrorKey (Some (DatV d))])
    as (st' & Hrun & He & Hcl).
  - by apply (initialised_lookup st UnknownPanicError).
  - split; [done|]. intros Hl. discriminate Hl.
  - exists st'. split_and!; [done| |done]. rewrite He. reflexivity.
Qed.

Lemma in_store_run {A} (k : M Store A) s :
  in_store k s = (mkState (fst (k (store s))) (world s), snd (k (store s))).
Proof. unfold in_store. by destruct (k (store s)). Qed.

Lemma in_store_gets {A} (f : Store -> A) s :
  in_store (gets f) s = (s, Ok (f (store s))).
Proof. unfold in_store, gets. by destruct s. Qed.

(** The loop over the entries for a fault that is not an [error], once the
    error made of it is known. *)
Lemma catch_unknown_run d cs s b s' pan :
  in_store (wrap_unknown d) s = (s', Ok (Some (ErrorPtr pan))) ->
  catch_unknown d cs (s, b) =
  match find (catches (store s) (Some UnknownPanicError)) cs with
  | Some c => ((fst (invoke c pan s'), true), snd (invoke c pan s'))
  | None => ((s, b), Ok tt)
  end.
Proof.
  intros Hwrap. induction cs as [|c cs IH]; [done|].
  cbn [catch_unknown find]. unfold catches at 1, wildcard at 1.
  destruct (decide (match_ c = None)) as [Hw|Hw].
  - rewrite (bool_decide_eq_true_2 _ Hw). cbn [orb].
    unfold invoke, wildcard. rewrite (bool_decide_eq_true_2 _ Hw).
    rewrite set_consumed_then. unfold bind at 1.
    rewrite outer_run, Hwrap. cbn [fst snd]. by rewrite outer_run.
  - rewrite (bool_decide_eq_false_2 _ Hw). cbn [orb].
    unfold bind at 1. rewrite outer_run, in_store_gets. cbn [fst snd].
    destruct (ErrorClass_Is (store s) (Some UnknownPanicError) (match_ c));
      [|apply IH].
    unfold invoke, wildcard. rewrite (bool_decide_eq_false_2 _ Hw).
    rewrite set_consumed_then. unfold bind at 1.
    rewrite outer_run, Hwrap. cbn [fst snd].
    unfold bind at 1. cbn [assert_Error ret]. by rewrite outer_run.
Qed.

(** C4.  When the block ends in a fault whose payload is not an [error],
    [Done] goes through the entries in order up to the first that is the
    wildcard or whose class the unknown-fault class is, up the parent
    links.  For that entry it makes a new error of the unknown-fault class,
    at an address that was free, with the payload in its data under
    [OriginalErrorKey], and calls the handler of the entry with it;
    [GetData] gives the payload back.  With no such entry nothing is made
    and no handler is called. *)
Theorem Done_unknown_fault p s d :
  snd (call (main p) tt s) = Panic (Some (DatV d)) ->
  initialised (store (fst (call (main p) tt s))) ->
  0 <= stackCaptureSize (store (fst (call (main p) tt s))) ->
  let s1 := fst (call (main p) tt s) in
  let rec := Some (DatV d) in
  exists s1' pan,
    in_store (wrap_unknown d) s1 = (s1', Ok (Some (ErrorPtr pan))) /\
    world s1' = world s1 /\
    errs (store s1) !! pan = None /\
    errs (store s1') = errs (store s1) ++ [unknown_fault (store s1) d] /\
    errs (store s1') !! pan = Some (unknown_fault (store s1) d) /\
    class (unknown_fault (store s1) d) = Some UnknownPanicError /\
    GetData (store s1') (Some (ErrorPtr pan)) OriginalErrorKey = Some (DatV d) /\
    (forall i c,
       first_at (catches (store s1) (Some UnknownPanicError)) (catch p) i c ->
       Done p s = finish p rec (fst (invoke c pan s1')) true
                               (snd (invoke c pan s1'))) /\
    (none_of (catches (store s1) (Some UnknownPanicError)) (catch p) ->
       Done p s = finish p rec s1 false (Ok tt)).
Proof.
  intros Hmain Hinit Hsz s1 rec.
  destruct (wrap_unknown_run (store s1) d Hinit Hsz) as (st' & Hrun & He & Hcl).
  assert (in_store (wrap_unknown d) s1 =
          (mkState st' (world s1), Ok (Some (ErrorPtr (length (errs (store s1)))))))
    as Hwrap by (by rewrite in_store_run, Hrun).
  assert (errs st' !! length (errs (store s1)) = Some (unknown_fault (store s1) d))
    as Hnew by (rewrite He; by apply list_lookup_middle).
  exists (mkState st' (world s1)), (length (errs (store s1))).
  assert (Done p s = finish p rec
            (fst (fst (dispatch p rec (s1, false))))
            (snd (fst (dispatch p rec (s1, false))))
            (snd (dispatch p rec (s1, false)))) as HDone.
  { rewrite Done_eq. cbn zeta. fold s1. by rewrite Hmain. }
  unfold rec in HDone at 2 3 4. cbn [dispatch] in HDone.
  rewrite (catch_unknown_run d (catch p) s1 false _ _ Hwrap) in HDone.
  split_and!; try done.
  - by apply lookup_ge_None_2.
  - cbn [GetData store]. rewrite Hnew. cbn [mbind option_bind].
    apply lookup_singleton_eq.
  - intros i c Hfirst. by rewrite (find_first_at _ _ i c Hfirst) in HDone.
  - intros Hnone. by rewrite (find_none_of _ _ Hnone) in HDone.
Qed.


(** C5.  [Repanic] of a classified error of the unknown-fault class raises
    the payload kept in its data under [OriginalErrorKey], the same value
    with the same address, and not the error.  [Repanic] of anything else
    raises what it is given.  [Repanic] of an error of the unknown-fault
    class with nothing under the key raises a new error of the
    programmer-error class.  So the error that [Done] makes of a payload
    gives that payload back. *)
Theorem Repanic_unwraps s :
  (forall w x d,
     errs (store s) !! w = Some x ->
     ErrorClass_Is (store s) (class x) (Some UnknownPanicError) = true ->
     GetData (store s) (Some (ErrorPtr w)) OriginalErrorKey = Some d ->
     Repanic (Some (ErrorPtr w)) s = (s, Panic (Some d))) /\
  (forall err_,
     not_unknown (store s) err_ ->
     Repanic err_ s = (s, Panic (iface err_))) /\
  (forall w x,
     errs (store s) !! w = Some x ->
     ErrorClass_Is (store s) (class x) (Some UnknownPanicError) = true ->
     GetData (store s) (Some (ErrorPtr w)) OriginalErrorKey = None ->
     initialised (store s) ->
     0 <= stackCaptureSize (store s) -> 0 <= stackLogSize (store s) ->
     exists s' n y,
       Repanic (Some (ErrorPtr w)) s = (s', Panic (Some (ErrV (ErrorPtr n)))) /\
       errs (store s) !! n = None /\
       errs (store s') !! n = Some y /\
       class y = Some ProgrammerError) /\
  (forall d s' pan,
     initialised (store s) -> 0 <= stackCaptureSize (store s) ->
     in_store (wrap_unknown d) s = (s', Ok (Some (ErrorPtr pan))) ->
     Repanic (Some (ErrorPtr pan)) s' = (s', Panic (Some (DatV d)))).
Proof.
  assert (forall (s : State W) w x d,
     errs (store s) !! w = Some x ->
     ErrorClass_Is (store s) (class x) (Some UnknownPanicError) = true ->
     GetData (store s) (Some (ErrorPtr w)) OriginalErrorKey = Some d ->
     Repanic (Some (ErrorPtr w)) s = (s, Panic (Some d))) as Hunwrap.
  { intros s0 w x d Hx HIs Hd. unfold Repanic, bind at 1.
    rewrite (in_store_Error_Is s0 w x _ Hx), HIs. cbn [negb].
    unfold bind. by rewrite in_store_gets, Hd. }
  split_and!.
  - apply Hunwrap.
  - intros [[w|id msg]|]; [|done..].
    intros (x & Hx & HIs). unfold Repanic, bind.
    by rewrite (in_store_Error_Is s w x _ Hx), HIs.
  - intros w x Hx HIs Hd Hinit Hcap Hlog.
    destruct (ErrorClass_New_run (store s) ProgrammerError
                (mkErrorClass (Some HierarchicalError) "Programmer Error" 3)
                misuse_message) as (st' & Hrun & He & Hcl).
    { by apply (initialised_lookup (store s) ProgrammerError). }
    { split; [done|]. intros _. split; [done|].
      rewrite error_text_plain. by eexists. }
    eexists (mkState st' (world s)), (length (errs (store s))), _.
    split_and!.
    + unfold Repanic, bind at 1.
      rewrite (in_store_Error_Is s w x _ Hx), HIs. cbn [negb].
      unfold bind at 1. rewrite in_store_gets, Hd.
      unfold bind. by rewrite in_store_run, Hrun.
    + by apply lookup_ge_None_2.
    + cbn [store]. rewrite He. by apply list_lookup_middle.
    + reflexivity.
  - intros d s' pan Hinit Hsz Hwrap.
    destruct (wrap_unknown_run (store s) d Hinit Hsz) as (st' & Hrun & He & Hcl).
    rewrite in_store_run, Hrun in Hwrap. cbn [fst snd] in Hwrap.
    injection Hwrap as <- <-.
    assert (errs st' !! length (errs (store s)) = Some (unknown_fault (store s) d))
      as Hnew by (rewrite He; by apply list_lookup_middle).
    apply (Hunwrap _ _ (unknown_fault (store s) d)); cbn [store].
    + done.
    + cbn [class unknown_fault]. apply ErrorClass_Is_refl.
    + cbn [GetData]. rewrite Hnew. cbn [mbind option_bind].
      apply lookup_singleton_eq.
Qed.


End Plans.
(** ** The statements on the plans of the tests *)

Lemma Done_first_match_wins_witness :
  snd (call (main plan_fruit) tt start) = Panic (Some (ErrV (ErrorPtr 0%nat))) /\
  errs (store (fst (call (main plan_fruit) tt start))) !! 0%nat =
    Some (mkError (Some (PlainError 1 "emsg")) (Some AppleError) (Some [])
                  no_side) /\
  ErrorClass_Is (store (fst (call (main plan_fruit) tt start)))
                (Some AppleError) (Some FruitError) = true /\
  world (fst (Done plan_fruit start)) =
    ["function called"; "fruit handler called"; "finally block called"] /\
  snd (Done plan_fruit start) = Ok tt.
Proof.
  assert (snd (call (main plan_fruit) tt start) =
          Panic (Some (ErrV (ErrorPtr 0%nat)))) as Hmain
    by (vm_compute; reflexivity).
  assert (errs (store (fst (call (main plan_fruit) tt start))) !! 0%nat =
          Some (mkError (Some (PlainError 1 "emsg")) (Some AppleError)
                        (Some []) no_side)) as Hx
    by (vm_compute; reflexivity).
  assert (ErrorClass_Is (store (fst (call (main plan_fruit) tt start)))
            (Some AppleError) (Some FruitError) = true) as HIs
    by (vm_compute; reflexivity).
  split_and!; [exact Hmain|exact Hx|exact HIs|..];
    destruct (Done_first_match_wins plan_fruit start 0%nat _ Hmain Hx)
      as (_ & _ & Hscenario);
    rewrite (Hscenario _ _ _ _ _ eq_refl HIs); vm_compute; reflexivity.
Defined.

Lemma finally_runs_once_witness :
  recovered (snd (call (main plan_crash) tt start)) =
    Some (ErrV (PlainError 1 "any error")) /\
  world (fst (Done plan_crash start)) =
    ["function called"; "catch wildcard called"; "finally block called"] /\
  snd (Done plan_crash start) = Panic (Some (ErrV (PlainError 2 "zomg"))).
Proof.
  assert (recovered (snd (call (main plan_crash) tt start)) =
          Some (ErrV (PlainError 1 "any error"))) as Hrec
    by (vm_compute; reflexivity).
  split; [exact Hrec|].
  destruct (finally_runs_once plan_crash start) as (_ & _ & _ & _ & Hraise & _).
  erewrite (Hraise 1%nat "any error" 0%nat _ _ _ _ Hrec); cycle 1.
  - split_and!; [vm_compute; reflexivity|vm_compute; reflexivity|].
    intros j b Hj. lia.
  - vm_compute. reflexivity.
  - vm_compute. reflexivity.
  - split; vm_compute; reflexivity.
Defined.

Lemma Done_plain_error_witness :
  snd (call (main plan_typed_only) tt start) =
    Panic (Some (ErrV (PlainError 1 "inner error"))) /\
  none_of wildcard (catch plan_typed_only) /\
  world (fst (Done plan_typed_only start)) =
    ["function called"; "finally block called"] /\
  snd (Done plan_typed_only start) =
    Panic (Some (ErrV (PlainError 1 "inner error"))).
Proof.
  assert (snd (call (main plan_typed_only) tt start) =
          Panic (Some (ErrV (PlainError 1 "inner error")))) as Hmain
    by (vm_compute; reflexivity).
  assert (none_of wildcard (catch plan_typed_only)) as Hnone.
  { intros c Hc. apply list_elem_of_singleton in Hc. rewrite Hc.
    vm_compute. reflexivity. }
  split_and!; [exact Hmain|exact Hnone|..];
    destruct (Done_plain_error plan_typed_only start 1%nat "inner error" Hmain)
      as (_ & Hnowild);
    destruct (Hnowild Hnone) as (_ & Hagain);
    erewrite Hagain by (vm_compute; reflexivity); vm_compute; reflexivity.
Defined.

Lemma Done_nil_fault_absorbed_witness :
  snd (call (main plan_nil) tt start) = Panic None /\
  world (fst (Done plan_nil start)) =
    ["function called"; "finally block called"] /\
  snd (Done plan_nil start) = Ok tt /\
  Done plan_return start = Done plan_nil start.
Proof.
  assert (snd (call (main plan_nil) tt start) = Panic None) as Hmain
    by (vm_compute; reflexivity).
  destruct (Done_nil_fault_absorbed plan_nil start Hmain) as (Hrun & _ & Hsame).
  split_and!; [exact Hmain|..].
  - rewrite Hrun. vm_compute. reflexivity.
  - rewrite Hrun. vm_compute. reflexivity.
  - apply Hsame; vm_compute; reflexivity.
Defined.

Lemma Done_unknown_fault_witness :
  snd (call (main plan_int) tt start) = Panic (Some (DatV (IntV 3))) /\
  initialised (store (fst (call (main plan_int) tt start))) /\
  0 <= stackCaptureSize (store (fst (call (main plan_int) tt start))) /\
  world (fst (Done plan_int start)) =
    ["function called"; "original: 3"; "finally block called"] /\
  snd (Done plan_int start) = Ok tt.
Proof.
  assert (snd (call (main plan_int) tt start) = Panic (Some (DatV (IntV 3))))
    as Hmain by (vm_compute; reflexivity).
  assert (initialised (store (fst (call (main plan_int) tt start)))) as Hinit.
  { exists [mkErrorClass (Some HierarchicalError) "fruit" 2;
            mkErrorClass (Some FruitError) "apple" 2;
            mkErrorClass (Some HierarchicalError) "rock" 2].
    vm_compute. reflexivity. }
  assert (0 <= stackCaptureSize (store (fst (call (main plan_int) tt start))))
    as Hsz by (vm_compute; discriminate).
  split_and!; [exact Hmain|exact Hinit|exact Hsz|..];
    destruct (Done_unknown_fault plan_int start (IntV 3) Hmain Hinit Hsz)
      as (s1' & pan & Hwrap & _ & _ & _ & _ & _ & _ & Hfirst & _);
    vm_compute in Hwrap; injection Hwrap as <- <-;
    (erewrite (Hfirst 1%nat); cycle 1;
     [split_and!; [vm_compute; reflexivity|vm_compute; reflexivity|];
      intros [|j] b Hj Hb; [|lia]; vm_compute in Hb; injection Hb as <-;
      vm_compute; reflexivity
     |vm_compute; reflexivity]).
Defined.

Lemma Repanic_unwraps_witness :
  initialised (store start) /\
  0 <= stackCaptureSize (store start) /\
  snd (in_store (wrap_unknown (ObjV 7 "{}")) start) = Ok (Some (ErrorPtr 0%nat)) /\
  snd (Repanic (Some (ErrorPtr 0%nat))
         (fst (in_store (wrap_unknown (ObjV 7 "{}")) start))) =
    Panic (Some (DatV (ObjV 7 "{}"))).
Proof.
  assert (initialised (store start)) as Hinit.
  { exists [mkErrorClass (Some HierarchicalError) "fruit" 2;
            mkErrorClass (Some FruitError) "apple" 2;
            mkErrorClass (Some HierarchicalError) "rock" 2].
    vm_compute. reflexivity. }
  assert (0 <= stackCaptureSize (store start)) as Hsz
    by (vm_compute; discriminate).
  split_and!; [exact Hinit|exact Hsz|vm_compute; reflexivity|].
  destruct (Repanic_unwraps start) as (_ & _ & _ & Hround).
  rewrite (Hround (ObjV 7 "{}") _ 0%nat Hinit Hsz); [reflexivity|].
  vm_compute. reflexivity.
Defined.

(** * More properties of the code *)
(** ** The order on classes *)

Lemma on_chain_trans cs e a b :
  on_chain cs e a -> on_chain cs (Some a) b -> on_chain cs e b.
Proof.
  intros H. induction H as [c|c k a Hk Hup IH]; [done|].
  intros Hab. apply (chain_up cs c k b Hk). by apply IH.
Qed.

(** X1.  In a store where every class was allocated after its parent, [Is]
    is an order on the classes: what is a [b] is everything [b] is, and two
    classes each of which is the other are one class. *)
Theorem Is_partial_order (s : Store) :
  classes_wf (classes s) ->
  (forall e a b,
     ErrorClass_Is s e (Some a) = true ->
     ErrorClass_Is s (Some a) (Some b) = true ->
     ErrorClass_Is s e (Some b) = true) /\
  (forall a b,
     ErrorClass_Is s (Some a) (Some b) = true ->
     ErrorClass_Is s (Some b) (Some a) = true ->
     a = b).
Proof.
  intros Hwf. split.
  - intros e a b Hea Hab.
    apply ErrorClass_Is_on_chain in Hea; [|done].
    apply ErrorClass_Is_on_chain in Hab; [|done].
    apply ErrorClass_Is_on_chain; [done|]. by apply (on_chain_trans _ _ a).
  - intros a b Hab Hba.
    apply ErrorClass_Is_on_chain in Hab; [|done].
    apply ErrorClass_Is_on_chain in Hba; [|done].
    pose proof (on_chain_le _ Hwf _ _ Hab a eq_refl).
    pose proof (on_chain_le _ Hwf _ _ Hba b eq_refl). lia.
Qed.

Lemma Is_partial_order_witness :
  classes_wf (classes boot) /\
  ErrorClass_Is boot (Some InvalidAddrError) (Some SystemError) = true.
Proof.
  assert (classes_wf (classes boot)) as Hwf
    by (apply classes_wfb_sound; vm_compute; reflexivity).
  split; [exact Hwf|].
  destruct (Is_partial_order boot Hwf) as [Htrans _].
  apply (Htrans (Some InvalidAddrError) NetworkError SystemError);
    vm_compute; reflexivity.
Defined.

Lemma on_chain_app_l cs more e a :
  on_chain cs e a -> on_chain (cs ++ more) e a.
Proof.
  intros H. induction H as [c|c k a Hk Hup IH]; [apply chain_here|].
  apply (chain_up _ c k a); [by apply lookup_app_l_Some|done].
Qed.

Lemma on_chain_app_inv cs more :
  classes_wf (cs ++ more) ->
  forall e a, on_chain (cs ++ more) e a ->
  forall c, e = Some c -> (c < length cs)%nat -> on_chain cs e a.
Proof.
  intros Hwf e a H.
  induction H as [c|c k a Hk Hup IH]; intros c' [= <-] Hc; [apply chain_here|].
  assert (cs !! c = Some k) as Hk' by (by rewrite lookup_app_l in Hk).
  apply (chain_up _ c k a Hk').
  destruct (parent k) as [p|] eqn:Hp; [|by apply on_chain_nil in Hup].
  apply (IH p eq_refl). pose proof (Hwf c k p Hk Hp). lia.
Qed.

Lemma classes_wf_app_l cs more : classes_wf (cs ++ more) -> classes_wf cs.
Proof.
  intros Hwf c k p Hk Hp. apply (Hwf c k p); [by apply lookup_app_l_Some|done].
Qed.

(** What an allocated class is does not change when classes are added. *)
Lemma ErrorClass_Is_app s s' more e a :
  classes s' = classes s ++ more -> classes_wf (classes s') ->
  (e < length (classes s))%nat ->
  ErrorClass_Is s' (Some e) a = ErrorClass_Is s (Some e) a.
Proof.
  intros Hs' Hwf' He.
  assert (classes_wf (classes s)) as Hwf
    by (rewrite Hs' in Hwf'; by apply classes_wf_app_l in Hwf').
  destruct a as [a|]; [|by rewrite !ErrorClass_Is_nil].
  apply eq_true_iff_eq. rewrite !ErrorClass_Is_on_chain by done.
  rewrite Hs' in Hwf' |- *. split.
  - intros H. by apply (on_chain_app_inv _ _ Hwf' _ _ H e).
  - apply on_chain_app_l.
Qed.

Lemma alloc_class_extends s p n fl :
  classes_wf (classes s) -> (p < length (classes s))%nat ->
  extends_under (alloc_class (mkErrorClass (Some p) n fl)) s p.
Proof.
  intros Hwf Hp. unfold extends_under.
  set (k := mkErrorClass (Some p) n fl).
  set (s' := fst (alloc_class k s)). set (c := snd (alloc_class k s)).
  assert (classes s' = classes s ++ [k]) as Hs' by reflexivity.
  assert (c = length (classes s)) as Hc by reflexivity.
  assert (classes s' !! c = Some k) as Hk
    by (rewrite Hs', Hc; by apply list_lookup_middle).
  assert (classes_wf (classes s')) as Hwf'.
  { apply classes_wf_alloc; [done|]. by intros p' [= <-]. }
  split_and!.
  - done.
  - unfold ErrorClass_Parent, bind. by rewrite Hk.
  - intros [a|]; [|rewrite !ErrorClass_Is_nil; split; [done|by intros [?|?]]].
    rewrite ErrorClass_Is_on_chain by done.
    rewrite <- (ErrorClass_Is_app s s' [k] p (Some a) Hs' Hwf' Hp).
    rewrite ErrorClass_Is_on_chain by done. split.
    + intros [->|(k' & Hk' & Hup)]%on_chain_inv; [by left|].
      rewrite Hk in Hk'. injection Hk' as <-. by right.
    + intros [[= <-]|Hup]; [apply chain_here|].
      by apply (chain_up _ c k a Hk).
  - intros e a He. by apply (ErrorClass_Is_app s s' [k]).
  - intros e He. apply ErrorClass_Is_false_above; [done|lia].
Qed.

(** X2.  In a store where every class was allocated after its parent, a
    constructor that is given an allocated parent, or nil, keeps the store
    so; [Parent] of the class it returns is that parent, or the
    hierarchical root for nil; the new class is itself and whatever its
    parent is, and nothing else; and the relation between the classes that
    existed is what it was. *)
Theorem constructors_extend_hierarchy (s : Store) (ec : option class_ptr)
    (n : string) (fl : ErrorClassFlags) :
  classes_wf (classes s) -> (or_root ec < length (classes s))%nat ->
  extends_under (NewSpecified ec n fl) s (or_root ec) /\
  extends_under (NewWith ec n fl) s (or_root ec) /\
  extends_under (NewWithout ec n fl) s (or_root ec) /\
  extends_under (New ec n) s (or_root ec).
Proof.
  intros Hwf Hp. split_and!; by apply alloc_class_extends.
Qed.

Lemma constructors_extend_hierarchy_witness :
  classes_wf (classes boot) /\
  (or_root (Some DNSError) < length (classes boot))%nat /\
  ErrorClass_Is (fst (New (Some DNSError) "timeout" boot))
                (Some (snd (New (Some DNSError) "timeout" boot)))
                (Some NetworkError) = true.
Proof.
  assert (classes_wf (classes boot)) as Hwf
    by (apply classes_wfb_sound; vm_compute; reflexivity).
  assert (or_root (Some DNSError) < length (classes boot))%nat as Hp
    by (vm_compute; lia).
  split_and!; [exact Hwf|exact Hp|].
  destruct (constructors_extend_hierarchy boot (Some DNSError) "timeout" 0 Hwf Hp)
    as (_ & _ & _ & _ & _ & Hnew & _).
  apply Hnew. right. vm_compute. reflexivity.
Defined.

(** ** Wrapping, again *)

(** X3.  An error that [Wrap] has just made is handed back as it is, the
    store untouched, by a second [Wrap] with the same class, with a class
    that class is, or with any class when the class of the error is among
    the exempted ones. *)
Theorem Wrap_twice_is_once (s : Store) (a : class_ptr) (c : ErrorClass)
    (cl : list (option class_ptr)) (cause : error) :
  classes s !! a = Some c ->
  wrappable s (Some a) cl cause ->
  can_wrap s c cause ->
  exists s' w,
    Wrap (Some a) (Some cause) cl s = (s', Ok (Some w)) /\
    Wrap (Some a) (Some w) cl s' = (s', Ok (Some w)) /\
    (forall e2 cl2, ErrorClass_Is s (Some a) e2 = true ->
       Wrap e2 (Some w) cl2 s' = (s', Ok (Some w))) /\
    (forall e2 cl2, Some a ∈ cl2 ->
       Wrap e2 (Some w) cl2 s' = (s', Ok (Some w))).
Proof.
  intros Hc Hw Hcan.
  destruct (Wrap_wraps s a c cl cause Hc Hw Hcan) as (s' & Hrun & He & Hcl).
  exists s', (ErrorPtr (length (errs s))).
  assert (errs s' !! length (errs s) =
          Some (mkError (Some cause) (Some a) (captured s (flags c)) no_side))
    as Hnew by (rewrite He; by apply list_lookup_middle).
  assert (forall e2 cl2, ErrorClass_Is s (Some a) e2 = true ->
            Wrap e2 (Some (ErrorPtr (length (errs s)))) cl2 s' =
            (s', Ok (Some (ErrorPtr (length (errs s)))))) as Hanc.
  { intros e2 cl2 HIs. apply Wrap_exempted.
    eexists _, _. split_and!; [done|exact Hnew|]. left. cbn [class].
    by rewrite (ErrorClass_Is_classes s s' _ _ Hcl). }
  split_and!; [done| |done|].
  - apply Hanc, ErrorClass_Is_refl.
  - intros e2 cl2 Hin. apply Wrap_exempted.
    eexists _, _. split_and!; [done|exact Hnew|]. right. cbn [class].
    apply Exists_exists. exists (Some a). split; [done|].
    apply ErrorClass_Is_refl.
Qed.

Lemma Wrap_twice_is_once_witness :
  classes boot !! DNSError = Some (mkErrorClass (Some NetworkError) "DNS Error" 0) /\
  wrappable boot (Some DNSError) [] (PlainError 7 "no such host") /\
  can_wrap boot (mkErrorClass (Some NetworkError) "DNS Error" 0)
           (PlainError 7 "no such host") /\
  exists s' w,
    Wrap (Some DNSError) (Some (PlainError 7 "no such host")) [] boot =
      (s', Ok (Some w)) /\
    Wrap (Some SystemError) (Some w) [] s' = (s', Ok (Some w)).
Proof.
  assert (can_wrap boot (mkErrorClass (Some NetworkError) "DNS Error" 0)
            (PlainError 7 "no such host")) as Hcan.
  { split; intros Hf; vm_compute in Hf; discriminate Hf. }
  split_and!; [reflexivity|exact I|exact Hcan|].
  destruct (Wrap_twice_is_once boot DNSError _ [] (PlainError 7 "no such host")
              eq_refl I Hcan) as (s' & w & Hrun & _ & Hanc & _).
  exists s', w. split; [exact Hrun|].
  apply Hanc. vm_compute. reflexivity.
Defined.

Lemma deref_error_run s p x : errs s !! p = Some x -> deref_error p s = (s, Ok x).
Proof. intros H. unfold deref_error. by rewrite H. Qed.

(** X4.  What [Wrap] was given can be read back from the error it made:
    [WrappedErr], as a method and as a function, returns the cause,
    [Class] the wrapping class, and [Stack] the captured bytes, which are
    there exactly when the class has the [CaptureStack] flag; [GetClass]
    finds the class, so [Contains] of a class is [Is] of the wrapping class.
    [WrappedErr] of nil and of an error of another type is what it was
    given. *)
Theorem Wrap_read_back (s : Store) (a : class_ptr) (c : ErrorClass)
    (cl : list (option class_ptr)) (cause : error) :
  classes s !! a = Some c ->
  wrappable s (Some a) cl cause ->
  can_wrap s c cause ->
  exists s' w,
    Wrap (Some a) (Some cause) cl s = (s', Ok (Some (ErrorPtr w))) /\
    Error_WrappedErr w s' = (s', Ok (Some cause)) /\
    WrappedErr (Some (ErrorPtr w)) s' = (s', Ok (Some cause)) /\
    Error_Class w s' = (s', Ok (Some a)) /\
    (exists st, Error_Stack w s' = (s', Ok st) /\
       (is_Some st <-> (0 <? flags_and (flags c) CaptureStack) = true)) /\
    (forall t, GetClass (Some (ErrorPtr w)) t s' = (s', Ok (Some a))) /\
    (forall e t, ErrorClass_Contains e (Some (ErrorPtr w)) t s' =
                 (s', Ok (ErrorClass_Is s (Some a) e))) /\
    WrappedErr None s' = (s', Ok None) /\
    (forall id msg, WrappedErr (Some (PlainError id msg)) s' =
                    (s', Ok (Some (PlainError id msg)))).
Proof.
  intros Hc Hw Hcan.
  destruct (Wrap_wraps s a c cl cause Hc Hw Hcan) as (s' & Hrun & He & Hcl).
  exists s', (length (errs s)).
  assert (errs s' !! length (errs s) =
          Some (mkError (Some cause) (Some a) (captured s (flags c)) no_side))
    as Hnew by (rewrite He; by apply list_lookup_middle).
  assert (forall {A} (f : Error -> A),
            (x <- deref_error (length (errs s)) ;; ret (f x))%go s' =
            (s', Ok (f (mkError (Some cause) (Some a) (captured s (flags c))
                                no_side)))) as Hread.
  { intros A f. unfold bind. by rewrite (deref_error_run _ _ _ Hnew). }
  split_and!; try done.
  - apply (Hread _ err).
  - apply (Hread _ err).
  - apply (Hread _ class).
  - eexists. split; [apply (Hread _ stack)|]. cbn [stack]. unfold captured.
    destruct (0 <? flags_and (flags c) CaptureStack); split; try done.
  - intros t. apply (Hread _ class).
  - intros e t. unfold ErrorClass_Contains, bind at 1. cbn [GetClass].
    unfold Error_Class. rewrite (Hread _ class). unfold gets. cbn [class].
    by rewrite (ErrorClass_Is_classes s s' _ _ Hcl).
Qed.

Lemma Wrap_read_back_witness :
  classes boot !! ProgrammerError =
    Some (mkErrorClass (Some HierarchicalError) "Programmer Error" 3) /\
  wrappable boot (Some ProgrammerError) [] (PlainError 7 "boom") /\
  can_wrap boot (mkErrorClass (Some HierarchicalError) "Programmer Error" 3)
           (PlainError 7 "boom") /\
  exists s' w,
    Wrap (Some ProgrammerError) (Some (PlainError 7 "boom")) [] boot =
      (s', Ok (Some (ErrorPtr w))) /\
    WrappedErr (Some (ErrorPtr w)) s' = (s', Ok (Some (PlainError 7 "boom"))).
Proof.
  assert (can_wrap boot
            (mkErrorClass (Some HierarchicalError) "Programmer Error" 3)
            (PlainError 7 "boom")) as Hcan.
  { split; intros _; [vm_compute; discriminate|].
    split; [vm_compute; discriminate|]. eexists. reflexivity. }
  split_and!; [reflexivity|exact I|exact Hcan|].
  destruct (Wrap_read_back boot ProgrammerError _ [] (PlainError 7 "boom")
              eq_refl I Hcan) as (s' & w & Hrun & _ & Hback & _).
  exists s', w. split; [exact Hrun|exact Hback].
Defined.

(** X5.  Where [Wrap] faults.  On a nil class it allocates the error and
    then faults on reading the flags of the class.  On a nil [*Error] it
    faults at once, the store as it was.  With the [CaptureStack] flag and a
    negative capture length it allocates the error and faults on making the
    buffer. *)
Theorem Wrap_faults (s : Store) (cl : list (option class_ptr)) :
  (forall cause,
     wrappable s None cl cause ->
     Wrap None (Some cause) cl s =
     (with_errs (errs s ++ [mkError (Some cause) None None no_side]) s,
      Panic nil_dereference)) /\
  (forall e p,
     errs s !! p = None ->
     Wrap e (Some (ErrorPtr p)) cl s = (s, Panic nil_dereference)) /\
  (forall a c cause,
     classes s !! a = Some c ->
     wrappable s (Some a) cl cause ->
     (0 <? flags_and (flags c) CaptureStack) = true ->
     stackCaptureSize s < 0 ->
     Wrap (Some a) (Some cause) cl s =
     (with_errs (errs s ++ [mkError (Some cause) (Some a) None no_side]) s,
      Panic makeslice_range)).
Proof.
  split_and!.
  - intros cause Hw. unfold Wrap. unfold bind at 1.
    by rewrite (wrappable_run s None cl cause Hw).
  - intros e p Hp. unfold Wrap. unfold bind at 1. unfold bind at 1.
    by rewrite (Error_Is_nil_pointer s p e Hp).
  - intros a c cause Hc Hw Hflag Hneg. unfold Wrap. unfold bind at 1.
    rewrite (wrappable_run s (Some a) cl cause Hw).
    unfold bind at 1. unfold alloc_error at 1.
    unfold bind at 1. unfold deref_class at 1.
    cbn [mbind option_bind classes with_errs]. rewrite Hc. cbn [deref ret].
    rewrite Hflag. unfold bind at 1. unfold bind at 1. unfold bind at 1.
    unfold make_bytes. cbn [stackCaptureSize with_errs].
    by rewrite (proj2 (Z.ltb_lt _ 0) Hneg).
Qed.

Lemma Wrap_faults_witness :
  wrappable boot None [] (PlainError 7 "boom") /\
  snd (Wrap None (Some (PlainError 7 "boom")) [] boot) = Panic nil_dereference /\
  length (errs (fst (Wrap None (Some (PlainError 7 "boom")) [] boot))) = 1%nat.
Proof.
  split; [exact I|].
  destruct (Wrap_faults boot []) as (Hnil & _).
  rewrite (Hnil (PlainError 7 "boom") I). split; reflexivity.
Defined.

(** *** Errors are not changed once made *)

Lemma below_same n {A} (c : M Store A) :
  (forall s, errs (fst (c s)) = errs s) -> keeps_below n c.
Proof. intros H s Hn. by rewrite H. Qed.

Lemma below_bind n {A B} (c : M Store A) (k : A -> M Store B) :
  keeps_below n c -> (forall a, keeps_below n (k a)) -> keeps_below n (bind c k).
Proof.
  intros Hc Hk s Hn. unfold bind. destruct (Hc s Hn) as [Ht Hl].
  destruct (c s) as [s' [a|v]]; cbn [fst] in *; [|done].
  destruct (Hk a s' Hl) as [Ht' Hl']. split; [congruence|done].
Qed.

Lemma below_alloc n {B} x (k : error_ptr -> M Store B) :
  (forall rv, (n <= rv)%nat -> keeps_below n (k rv)) ->
  keeps_below n (bind (alloc_error x) k).
Proof.
  intros Hk s Hn. unfold bind, alloc_error.
  destruct (Hk (length (errs s)) Hn (with_errs (errs s ++ [x]) s)) as [Ht Hl].
  { cbn [errs with_errs]. rewrite length_app. lia. }
  split; [|done]. rewrite Ht. cbn [errs with_errs].
  by rewrite take_app_le.
Qed.

Lemma below_set_stack n rv bytes :
  (n <= rv)%nat -> keeps_below n (set_stack rv bytes).
Proof.
  intros Hrv s Hn. unfold set_stack, modify. cbn [fst errs with_errs].
  split; [|by rewrite length_alter].
  rewrite take_alter. by rewrite decide_False by lia.
Qed.

Lemma below_deref n {A} (f : Store -> option A) :
  keeps_below n (fun s => deref (f s) s).
Proof. apply below_same. intros s. by destruct (f s). Qed.

Lemma below_make_bytes n (f : Store -> Z) :
  keeps_below n (fun s => make_bytes (f s) s).
Proof. apply below_same. intros s. unfold make_bytes. by destruct (f s <? 0). Qed.

Lemma below_Error_Is n e ec : keeps_below n (Error_Is e ec).
Proof.
  apply below_bind; [apply (below_deref n (fun s => errs s !! e))|].
  intros x. by apply below_same.
Qed.

Lemma below_Is_any n e cl : keeps_below n (Is_any e cl).
Proof.
  induction cl as [|c cl IH]; [by apply below_same|].
  apply below_bind; [apply below_Error_Is|].
  intros []; [by apply below_same|apply IH].
Qed.

Lemma below_LogWithStack n m : keeps_below n (LogWithStack m).
Proof.
  apply below_bind; [apply (below_make_bytes n stackLogSize)|]. intros size.
  apply below_bind; by intros; apply below_same.
Qed.

Lemma below_Wrap n e err_ cl : keeps_below n (Wrap e err_ cl).
Proof.
  destruct err_ as [cause|]; [|by apply below_same].
  apply below_bind.
  - destruct cause as [ec|]; [|by apply below_same].
    apply below_bind; [apply below_Error_Is|].
    intros []; [by apply below_same|apply below_Is_any].
  - intros []; [by apply below_same|].
    apply below_alloc. intros rv Hrv.
    apply below_bind;
      [apply (below_deref n (fun s => e ≫= fun a => classes s !! a))|].
    intros c. apply below_bind.
    + destruct (0 <? _); [|by apply below_same].
      apply below_bind; [apply (below_make_bytes n stackCaptureSize)|].
      intros size. apply below_bind; [by apply below_same|].
      intros buf. by apply below_set_stack.
    + intros _. apply below_bind; [|by intros; apply below_same].
      destruct (0 <? _); [|by apply below_same].
      apply below_bind; [|intros; apply below_LogWithStack].
      apply (below_deref n (fun s => error_text (S rv) s (Some (ErrorPtr rv)))).
Qed.

Lemma below_prefix {A} (c : M Store A) s :
  keeps_below (length (errs s)) c -> errs s `prefix_of` errs (fst (c s)).
Proof.
  intros H. destruct (H s (le_n _)) as [Ht _].
  rewrite firstn_all in Ht.
  exists (drop (length (errs s)) (errs (fst (c s)))).
  rewrite <- Ht at 1. symmetry. apply take_drop.
Qed.

(** X6.  However [Wrap] ends, with a value or with a fault, the errors that
    existed are in the store as they were, at their addresses, and so are
    the classes; the same holds of the method [New]. *)
Theorem Wrap_changes_no_error (s : Store) (e : option class_ptr)
    (err_ : option error) (cl : list (option class_ptr)) (msg : string) :
  errs s `prefix_of` errs (fst (Wrap e err_ cl s)) /\
  (forall p x, errs s !! p = Some x ->
               errs (fst (Wrap e err_ cl s)) !! p = Some x) /\
  classes (fst (Wrap e err_ cl s)) = classes s /\
  errs s `prefix_of` errs (fst (ErrorClass_New e msg s)) /\
  (forall p x, errs s !! p = Some x ->
               errs (fst (ErrorClass_New e msg s)) !! p = Some x).
Proof.
  assert (errs s `prefix_of` errs (fst (Wrap e err_ cl s))) as Hw
    by apply below_prefix, below_Wrap.
  assert (errs s `prefix_of` errs (fst (ErrorClass_New e msg s))) as Hn.
  { apply below_prefix, below_bind; [by apply below_same|].
    intros cause. apply below_Wrap. }
  split_and!; [done| |apply keeps_Wrap|done|].
  - intros p x Hx. destruct Hw as [tail ->]. by apply lookup_app_l_Some.
  - intros p x Hx. destruct Hn as [tail ->]. by apply lookup_app_l_Some.
Qed.

Lemma Wrap_changes_no_error_witness :
  errs (one_error "boom" None) !! 0%nat =
    Some (mkError (Some (PlainError 1 "boom")) (Some HierarchicalError) None
                  no_side) /\
  errs (fst (Wrap (Some ProgrammerError) (Some (ErrorPtr 0%nat)) []
                  (one_error "boom" None))) !! 0%nat =
    Some (mkError (Some (PlainError 1 "boom")) (Some HierarchicalError) None
                  no_side).
Proof.
  split; [reflexivity|].
  destruct (Wrap_changes_no_error (one_error "boom" None) (Some ProgrammerError)
              (Some (ErrorPtr 0%nat)) [] "") as (_ & Hkeep & _).
  apply Hkeep. reflexivity.
Defined.

(** *** [Error()] returns *)

Lemma error_text_fuel_le s v m n n' :
  (n <= n')%nat -> error_text n s v = Some m -> error_text n' s v = Some m.
Proof.
  induction 1 as [|n' Hle IH]; [done|].
  intros H. by apply error_text_more_fuel, IH.
Qed.

Lemma error_text_total s :
  errs_wf s ->
  forall p x, errs s !! p = Some x ->
              is_Some (error_text (S p) s (Some (ErrorPtr p))).
Proof.
  intros Hwf p. induction (lt_wf p) as [p _ IH]. intros x Hx.
  destruct (Hwf p x Hx) as [[c Hc] Hcause].
  rewrite error_text_S, Hx. cbn [mbind option_bind].
  assert (is_Some (error_text p s (err x))) as [m Hm].
  { destruct (err x) as [[q|id msg]|]; [|rewrite error_text_plain; by eexists|done].
    assert (is_Some (errs s !! q)) as [y Hy].
    { apply lookup_lt_is_Some. apply lookup_lt_Some in Hx. lia. }
    destruct (IH q Hcause y Hy) as [m Hm]. exists m.
    apply (error_text_fuel_le s _ m (S q) p); [lia|done]. }
  rewrite Hm. cbn [mbind option_bind]. rewrite Hc. by eexists.
Qed.

(** X7.  In a store where every error was allocated after its cause and
    has an allocated class, [Error()] returns a text for every error, with
    the store unchanged.  There, and with buffer lengths that are not
    negative, [Wrap] of a cause it does not hand back returns a new error,
    for every allocated class, and leaves the store such. *)
Theorem Error_always_returns (s : Store) :
  errs_wf s ->
  (forall p x, errs s !! p = Some x ->
     exists m, Error_Error p s = (s, Ok m)) /\
  (forall a c cl cause,
     classes s !! a = Some c ->
     wrappable s (Some a) cl cause ->
     0 <= stackCaptureSize s -> 0 <= stackLogSize s ->
     exists s' w,
       Wrap (Some a) (Some cause) cl s = (s', Ok (Some (ErrorPtr w))) /\
       errs_wf s').
Proof.
  intros Hwf. split.
  - intros p x Hx. destruct (error_text_total s Hwf p x Hx) as [m Hm].
    exists m. unfold Error_Error. by rewrite Hm.
  - intros a c cl cause Hc Hw Hcap Hlog.
    assert (can_wrap s c cause) as Hcan.
    { split; [done|]. intros _. split; [done|].
      destruct cause as [q|id msg]; [|rewrite error_text_plain; by eexists].
      destruct Hw as (y & Hy & _).
      destruct (error_text_total s Hwf q y Hy) as [m Hm]. exists m.
      apply (error_text_fuel_le s _ m (S q)); [|done].
      apply lookup_lt_Some in Hy. lia. }
    destruct (Wrap_wraps s a c cl cause Hc Hw Hcan) as (s' & Hrun & He & Hcl).
    exists s', (length (errs s)). split; [done|].
    intros p x Hx. rewrite He in Hx. rewrite Hcl.
    destruct (decide (p < length (errs s))%nat) as [Hlt|Hge].
    + rewrite lookup_app_l in Hx by done. by apply Hwf.
    + rewrite lookup_app_r in Hx by lia.
      destruct (p - length (errs s))%nat as [|k] eqn:Hk; [|done].
      cbn in Hx. injection Hx as <-. cbn [class err]. split.
      * cbn [mbind option_bind]. rewrite Hc. by eexists.
      * destruct cause as [q|id msg]; [|done].
        destruct Hw as (y & Hy & _). apply lookup_lt_Some in Hy. lia.
Qed.

Lemma Error_always_returns_witness :
  errs_wf (one_error "boom" None) /\
  exists m, Error_Error 0%nat (one_error "boom" None) =
            (one_error "boom" None, Ok m).
Proof.
  assert (errs_wf (one_error "boom" None)) as Hwf.
  { intros [|p] x Hx; [|discriminate Hx].
    injection Hx as <-. split; [by eexists|exact I]. }
  split; [exact Hwf|].
  destruct (Error_always_returns (one_error "boom" None) Hwf) as [Htext _].
  apply (Htext 0%nat _ eq_refl).
Defined.

(** X8.  The text of an error that the method [New] of a class has just
    made is the class name and the message in the format of [Error()],
    followed by the backtrace when the class captures the stack; for a
    message on one line that ends in no blank, and a class that does not
    capture, it is the name, a colon, a space and the message. *)
Theorem New_then_Error (s : Store) (a : class_ptr) (c : ErrorClass)
    (msg : string) :
  classes s !! a = Some c ->
  can_wrap s c (PlainError (S (plain_errors s)) msg) ->
  exists s' w,
    ErrorClass_New (Some a) msg s = (s', Ok (Some (ErrorPtr w))) /\
    Error_Error w s' =
      (s', Ok (Error_format (name c)
                 (strings.TrimRight msg (newline +:+ " "))
                 (captured s (flags c)))) /\
    (single_line msg -> ends_clean msg ->
     (0 <? flags_and (flags c) CaptureStack) = false ->
     Error_Error w s' = (s', Ok (name c +:+ ": " +:+ msg))).
Proof.
  intros Hc Hcan.
  destruct (ErrorClass_New_run s a c msg Hc Hcan) as (s' & Hrun & He & Hcl).
  exists s', (length (errs s)).
  assert (Error_Error (length (errs s)) s' =
      (s', Ok (Error_format (name c)
                 (strings.TrimRight msg (newline +:+ " "))
                 (captured s (flags c))))) as Htext.
  { rewrite <- render_format.
    apply (Error_Error_run s' _
             (mkError (Some (PlainError (S (plain_errors s)) msg)) (Some a)
                      (captured s (flags c)) no_side) c msg).
    - rewrite He. by apply list_lookup_middle.
    - cbn [class mbind option_bind]. by rewrite Hcl.
    - apply error_text_plain. }
  split_and!; [done..|].
  intros Hline Hclean Hflag. rewrite Htext.
  rewrite (TrimRight_clean msg Hclean). unfold Error_format, captured.
  by rewrite Hflag, (bool_decide_eq_true_2 _ Hline).
Qed.

Lemma ends_clean_by_trim s :
  strings.TrimRight s (newline +:+ " ") = s -> ends_clean s.
Proof.
  intros H. destruct (TrimRight_blanks s) as (tail & _ & _ & Hclean).
  by rewrite H in Hclean.
Qed.

Lemma New_then_Error_witness :
  classes boot !! DNSError = Some (mkErrorClass (Some NetworkError) "DNS Error" 0) /\
  can_wrap boot (mkErrorClass (Some NetworkError) "DNS Error" 0)
           (PlainError (S (plain_errors boot)) "no such host") /\
  exists s' w,
    ErrorClass_New (Some DNSError) "no such host" boot =
      (s', Ok (Some (ErrorPtr w))) /\
    Error_Error w s' = (s', Ok "DNS Error: no such host").
Proof.
  assert (can_wrap boot (mkErrorClass (Some NetworkError) "DNS Error" 0)
            (PlainError (S (plain_errors boot)) "no such host")) as Hcan.
  { split; intros Hf; vm_compute in Hf; discriminate Hf. }
  split_and!; [reflexivity|exact Hcan|].
  destruct (New_then_Error boot DNSError _ "no such host" eq_refl Hcan)
    as (s' & w & Hrun & _ & Hplain).
  exists s', w. split; [exact Hrun|].
  apply Hplain.
  - apply (bool_decide_unpack _). vm_compute. reflexivity.
  - apply ends_clean_by_trim. vm_compute. reflexivity.
  - reflexivity.
Defined.

(** ** Errors of the platform *)

Lemma initialised_classes s :
  initialised s -> exists more, classes s = classes boot ++ more.
Proof. intros [more H]. by exists more. Qed.

(** X9.  Once the packages are initialised, in a store where every class
    was allocated after its parent, an error that is not a [*Error], or
    nil, is classified under the system root and not under the
    hierarchical one, whatever its type: [SystemError.Contains] holds of
    it.  The types of package [net] are classified under [NetworkError],
    the DNS configuration error under [DNSError] too, the invalid address
    error under [AddrError] too. *)
Theorem platform_errors_are_system_errors (s : Store) (t : go_type) :
  initialised s -> classes_wf (classes s) ->
  (forall err_,
     (err_ = None \/ exists id msg, err_ = Some (PlainError id msg)) ->
     GetClass err_ t s = (s, Ok (Some (findSystemErrorClass t))) /\
     ErrorClass_Contains (Some SystemError) err_ t s = (s, Ok true) /\
     ErrorClass_Contains (Some HierarchicalError) err_ t s = (s, Ok false)) /\
  (t ∈ [NetUnknownNetworkError; NetAddrError; NetInvalidAddrError; NetOpError_;
        NetParseError_; NetDNSError; NetDNSConfigError; NetError] ->
   ErrorClass_Is s (Some (findSystemErrorClass t)) (Some NetworkError) = true) /\
  ErrorClass_Is s (Some (findSystemErrorClass NetDNSConfigError))
                (Some DNSError) = true /\
  ErrorClass_Is s (Some (findSystemErrorClass NetInvalidAddrError))
                (Some AddrError) = true.
Proof.
  intros Hinit Hwf. destruct (initialised_classes s Hinit) as [more Hs].
  assert (forall c a, (c < length (classes boot))%nat ->
            ErrorClass_Is s (Some c) a = ErrorClass_Is boot (Some c) a) as Hboot.
  { intros c a Hc. by apply (ErrorClass_Is_app boot s more). }
  assert (findSystemErrorClass t < length (classes boot))%nat as Ht
    by (destruct t; vm_compute; lia).
  split_and!.
  - intros err_ Herr.
    assert (GetClass err_ t s = (s, Ok (Some (findSystemErrorClass t)))) as Hget.
    { by destruct Herr as [->|(id & msg & ->)]. }
    split_and!; [done|..]; unfold ErrorClass_Contains, bind; rewrite Hget;
      unfold gets; rewrite Hboot by done; do 2 f_equal;
      destruct t; vm_compute; reflexivity.
  - intros Hin. rewrite Hboot by done.
    repeat (apply elem_of_cons in Hin as [->|Hin]; [vm_compute; reflexivity|]).
    by apply elem_of_nil in Hin.
  - rewrite Hboot by (vm_compute; lia). vm_compute. reflexivity.
  - rewrite Hboot by (vm_compute; lia). vm_compute. reflexivity.
Qed.

Lemma platform_errors_are_system_errors_witness :
  initialised boot /\ classes_wf (classes boot) /\
  ErrorClass_Contains (Some SystemError) (Some (PlainError 3 "connection refused"))
                      NetOpError_ boot = (boot, Ok true).
Proof.
  assert (classes_wf (classes boot)) as Hwf
    by (apply classes_wfb_sound; vm_compute; reflexivity).
  split_and!; [exact initialised_boot|exact Hwf|].
  destruct (platform_errors_are_system_errors boot NetOpError_
              initialised_boot Hwf) as (Hsys & _).
  destruct (Hsys (Some (PlainError 3 "connection refused"))) as (_ & Hc & _).
  - right. eexists _, _. reflexivity.
  - exact Hc.
Defined.

(** ** Plans, again *)

Section MorePlans.

Context {W : Type}.
Implicit Types (p : Plan W) (s : State W) (c : check W).

Lemma Done_main_returns p s :
  snd (call (main p) tt s) = Ok tt ->
  Done p s = call (finally p) tt (fst (call (main p) tt s)).
Proof.
  intros Hmain. rewrite Done_eq. cbn zeta. rewrite Hmain. cbn [recovered dispatch].
  unfold set_consumed, modify, finish. cbn [fst snd].
  by destruct (call (finally p) tt _) as [s3 [[]|v]].
Qed.

(** X10.  [Finally] puts its callback before the ones registered so far and
    leaves the block and the entries alone: the newest callback runs first,
    and when it raises a fault the older ones do not run.  Where [Finally]
    stands among the calls of [Catch] and [CatchAll] makes no difference to
    the plan. *)
Theorem Finally_newest_first p (f : func unit) s :
  (forall s0,
     call (finally (Finally f p)) tt s0 =
     match call f tt s0 with
     | (s', Ok _) => call (finally p) tt s'
     | (s', Panic v) => (s', Panic v)
     end) /\
  (snd (call (main p) tt s) = Ok tt ->
   Done (Finally f p) s =
   match call f tt (fst (call (main p) tt s)) with
   | (s', Ok _) => call (finally p) tt s'
   | (s', Panic v) => (s', Panic v)
   end) /\
  (forall kind h, Finally f (Catch kind h p) = Catch kind h (Finally f p)) /\
  (forall h, Finally f (CatchAll h p) = CatchAll h (Finally f p)).
Proof.
  split_and!; [done| |done..].
  intros Hmain. by rewrite (Done_main_returns (Finally f p) s Hmain).
Qed.

(** X11.  [OriginalError] returns what is kept in the error under
    [OriginalErrorKey], and the error itself when nothing is; so it gives
    the payload of the error that [Done] made of it.  [Repanic] raises what
    [OriginalError] returns for an error of the unknown-fault class that
    keeps a payload, and for anything that is not of that class and keeps
    nothing under the key. *)
Theorem Repanic_raises_OriginalError s :
  (forall err_, GetData (store s) err_ OriginalErrorKey = None ->
                OriginalError (store s) err_ = iface err_) /\
  (forall d s' pan,
     initialised (store s) -> 0 <= stackCaptureSize (store s) ->
     in_store (wrap_unknown d) s = (s', Ok (Some (ErrorPtr pan))) ->
     OriginalError (store s') (Some (ErrorPtr pan)) = Some (DatV d)) /\
  (forall w x d,
     errs (store s) !! w = Some x ->
     ErrorClass_Is (store s) (class x) (Some UnknownPanicError) = true ->
     GetData (store s) (Some (ErrorPtr w)) OriginalErrorKey = Some d ->
     Repanic (Some (ErrorPtr w)) s =
     (s, Panic (OriginalError (store s) (Some (ErrorPtr w))))) /\
  (forall err_,
     not_unknown (store s) err_ ->
     GetData (store s) err_ OriginalErrorKey = None ->
     Repanic err_ s = (s, Panic (OriginalError (store s) err_))).
Proof.
  split_and!.
  - intros err_ Hd. unfold OriginalError. by rewrite Hd.
  - intros d s' pan Hinit Hsz Hwrap.
    destruct (wrap_unknown_run (store s) d Hinit Hsz) as (st' & Hrun & He & Hcl).
    rewrite in_store_run, Hrun in Hwrap. cbn [fst snd] in Hwrap.
    injection Hwrap as <- <-.
    assert (GetData st' (Some (ErrorPtr (length (errs (store s)))))
                    OriginalErrorKey = Some (DatV d)) as Hd.
    { cbn [GetData]. rewrite He, list_lookup_middle by done.
      cbn [mbind option_bind]. apply lookup_singleton_eq. }
    unfold OriginalError. cbn [store]. by rewrite Hd.
  - intros w x d Hx HIs Hd. unfold OriginalError. rewrite Hd.
    unfold Repanic, bind at 1.
    rewrite (in_store_Error_Is s w x _ Hx), HIs. cbn [negb].
    unfold bind. by rewrite in_store_gets, Hd.
  - intros err_ Hnot Hd. unfold OriginalError. rewrite Hd.
    destruct err_ as [[w|id msg]|]; [|done..].
    destruct Hnot as (x & Hx & HIs). unfold Repanic, bind.
    by rewrite (in_store_Error_Is s w x _ Hx), HIs.
Qed.

(** X12.  An entry registered by [Catch] with a nil class is taken for the
    wildcard, and the wildcard's handler of such an entry is the nil
    function: when it is the first entry and the block raises an error,
    the fault is marked as consumed, the handler given to [Catch] is not
    called, the call of the nil function faults, and after [finally] has
    returned that fault, not the one of the block, leaves [Done]. *)
Theorem Catch_nil_class_loses_fault p s (h : func error_ptr) rest :
  catch p = mkCheck None h None :: rest ->
  let s1 := fst (call (main p) tt s) in
  (forall q f, catch (Catch None h (Do f)) = [mkCheck None h None] /\
               catch (Catch None h q) = catch q ++ [mkCheck None h None]) /\
  (forall id msg,
     snd (call (main p) tt s) = Panic (Some (ErrV (PlainError id msg))) ->
     Done p s = finish p (Some (ErrV (PlainError id msg))) s1 true
                       (Panic nil_dereference) /\
     forall s3, call (finally p) tt s1 = (s3, Ok tt) ->
                Done p s = (s3, Panic nil_dereference)) /\
  (forall e x,
     snd (call (main p) tt s) = Panic (Some (ErrV (ErrorPtr e))) ->
     errs (store s1) !! e = Some x ->
     Done p s = finish p (Some (ErrV (ErrorPtr e))) (noted e s1) true
                       (Panic nil_dereference) /\
     forall s3, call (finally p) tt (noted e s1) = (s3, Ok tt) ->
                Done p s = (s3, Panic nil_dereference)).
Proof.
  intros Hcatch s1. split_and!; [done|..].
  - intros id msg Hmain.
    assert (Done p s = finish p (Some (ErrV (PlainError id msg))) s1 true
                         (Panic nil_dereference)) as HDone.
    { rewrite Done_eq. cbn zeta. fold s1. rewrite Hmain. cbn [recovered].
      by rewrite dispatch_plain, Hcatch. }
    split; [done|]. intros s3 Hfin. rewrite HDone. unfold finish.
    by rewrite Hfin.
  - intros e x Hmain Hx.
    assert (Done p s = finish p (Some (ErrV (ErrorPtr e))) (noted e s1) true
                         (Panic nil_dereference)) as HDone.
    { rewrite Done_eq. cbn zeta. fold s1. rewrite Hmain. cbn [recovered].
      by rewrite (dispatch_classified p e x s1 Hx), Hcatch. }
    split; [done|]. intros s3 Hfin. rewrite HDone. unfold finish.
    by rewrite Hfin.
Qed.

(** X13.  [Done] of a plan with no entry is the block followed by
    [finally]: a block that returns, and one that raises nil, leave [Done]
    returning; a block that raises an error of another type than [*Error],
    or a value that is no error, leaves [Done] raising the same value in
    the state the block left; for [Do(f).Done()] that is the outcome of [f]
    itself. *)
Theorem Done_without_entries p s :
  catch p = [] ->
  let s1 := fst (call (main p) tt s) in
  (snd (call (main p) tt s) = Ok tt \/ snd (call (main p) tt s) = Panic None ->
   Done p s = call (finally p) tt s1) /\
  (forall v,
     snd (call (main p) tt s) = Panic (Some v) ->
     (forall e, v <> ErrV (ErrorPtr e)) ->
     Done p s = finish p (Some v) s1 false (Ok tt)) /\
  (forall f v,
     p = Do (Some f) ->
     snd (f tt s) = Panic (Some v) ->
     (forall e, v <> ErrV (ErrorPtr e)) ->
     Done p s = f tt s) /\
  (forall f, p = Do (Some f) -> snd (f tt s) = Ok tt -> Done p s = f tt s).
Proof.
  intros Hcatch s1.
  assert (forall v,
     snd (call (main p) tt s) = Panic (Some v) ->
     (forall e, v <> ErrV (ErrorPtr e)) ->
     Done p s = finish p (Some v) s1 false (Ok tt)) as Hraise.
  { intros v Hmain Hv. rewrite Done_eq. cbn zeta. fold s1. rewrite Hmain.
    cbn [recovered]. destruct v as [[e|id msg]|d].
    - by destruct (Hv e).
    - by rewrite dispatch_plain, Hcatch.
    - cbn [dispatch]. by rewrite Hcatch. }
  split_and!.
  - intros [Hmain|Hmain].
    + by apply Done_main_returns.
    + rewrite Done_eq. cbn zeta. fold s1. rewrite Hmain. cbn [recovered dispatch].
      unfold set_consumed, modify, finish. cbn [fst snd].
      by destruct (call (finally p) tt s1) as [s3 [[]|v]].
  - exact Hraise.
  - intros f v -> Hmain Hv. rewrite (Hraise v Hmain Hv).
    unfold finish, s1. cbn [finally Do call main ret].
    cbn [main Do call] in Hmain. destruct (f tt s) as [s' r]. cbn [fst snd] in *.
    by rewrite Hmain.
  - intros f -> Hmain. rewrite Done_main_returns by done.
    cbn [finally Do call main ret] in Hmain |- *.
    destruct (f tt s) as [s' r]. cbn [fst snd] in *. by rewrite Hmain.
Qed.

End MorePlans.

Lemma Finally_newest_first_witness :
  snd (call (main plan_return) tt start) = Ok tt /\
  world (fst (Done (Finally (Some (fun _ => say "newest")) plan_return) start)) =
    ["function called"; "newest"; "finally block called"].
Proof.
  assert (snd (call (main plan_return) tt start) = Ok tt) as Hmain
    by (vm_compute; reflexivity).
  split; [exact Hmain|].
  destruct (Finally_newest_first plan_return (Some (fun _ => say "newest")) start)
    as (_ & Hdone & _).
  rewrite (Hdone Hmain). vm_compute. reflexivity.
Defined.

Lemma Repanic_raises_OriginalError_witness :
  initialised (store start) /\
  0 <= stackCaptureSize (store start) /\
  OriginalError (store (fst (in_store (wrap_unknown (IntV 3)) start)))
                (Some (ErrorPtr 0%nat)) = Some (DatV (IntV 3)).
Proof.
  assert (initialised (store start)) as Hinit.
  { exists [mkErrorClass (Some HierarchicalError) "fruit" 2;
            mkErrorClass (Some FruitError) "apple" 2;
            mkErrorClass (Some HierarchicalError) "rock" 2].
    vm_compute. reflexivity. }
  assert (0 <= stackCaptureSize (store start)) as Hsz
    by (vm_compute; discriminate).
  split_and!; [exact Hinit|exact Hsz|].
  destruct (Repanic_raises_OriginalError start) as (_ & Hround & _).
  apply (Hround (IntV 3) _ 0%nat Hinit Hsz). vm_compute. reflexivity.
Defined.

Lemma Catch_nil_class_loses_fault_witness :
  catch plan_nil_class =
    [mkCheck None (Some (fun _ => say "handler called")) None] /\
  snd (call (main plan_nil_class) tt start) =
    Panic (Some (ErrV (PlainError 1 "oops"))) /\
  world (fst (Done plan_nil_class start)) =
    ["function called"; "finally block called"] /\
  snd (Done plan_nil_class start) = Panic nil_dereference.
Proof.
  assert (snd (call (main plan_nil_class) tt start) =
          Panic (Some (ErrV (PlainError 1 "oops")))) as Hmain
    by (vm_compute; reflexivity).
  split_and!; [reflexivity|exact Hmain|..];
    destruct (Catch_nil_class_loses_fault plan_nil_class start
                (Some (fun _ => say "handler called")) [] eq_refl)
      as (_ & Hplain & _);
    destruct (Hplain 1%nat "oops" Hmain) as (_ & Hfin);
    erewrite Hfin by (vm_compute; reflexivity); vm_compute; reflexivity.
Defined.

Lemma Done_without_entries_witness :
  catch (Do (Some block_raises)) = [] /\
  snd (block_raises tt start) = Panic (Some (ErrV (PlainError 1 "oops"))) /\
  Done (Do (Some block_raises)) start = block_raises tt start.
Proof.
  assert (snd (block_raises tt start) =
          Panic (Some (ErrV (PlainError 1 "oops")))) as Hmain
    by (vm_compute; reflexivity).
  split_and!; [reflexivity|exact Hmain|].
  destruct (Done_without_entries (Do (Some block_raises)) start eq_refl)
    as (_ & _ & Hsame & _).
  apply (Hsame block_raises _ eq_refl Hmain). intros e He. discriminate He.
Defined.

(** ** What is logged *)

Lemma LogWithStack_run s m :
  0 <= stackLogSize s ->
  LogWithStack m s =
  (with_logged
     (logged s ++ [m +:+ newline +:+
                   string_of_list_byte
                     (take (Z.to_nat (stackLogSize s)) (goroutine s))]) s,
   Ok tt).
Proof.
  intros Hsz. unfold LogWithStack. unfold bind at 1.
  by rewrite make_bytes_run.
Qed.

Lemma LogWithStack_negative s m :
  stackLogSize s < 0 -> LogWithStack m s = (s, Panic makeslice_range).
Proof.
  intros Hsz. unfold LogWithStack, bind, make_bytes.
  by rewrite (proj2 (Z.ltb_lt _ 0) Hsz).
Qed.

(** X14.  [Wrap] logs when, and only when, it makes an error of a class
    with the [LogOnCreation] flag: then one line is added to the log, the
    text of the new error, a newline and the stack of the goroutine cut to
    the log length; otherwise the log is what it was.  [LogWithStack]
    faults on a negative log length and logs nothing. *)
Theorem Wrap_logs_on_creation (s : Store) (a : class_ptr) (c : ErrorClass)
    (cl : list (option class_ptr)) (cause : error) :
  classes s !! a = Some c ->
  wrappable s (Some a) cl cause ->
  can_wrap s c cause ->
  let s' := fst (Wrap (Some a) (Some cause) cl s) in
  ((0 <? flags_and (flags c) LogOnCreation) = false -> logged s' = logged s) /\
  (forall m,
     (0 <? flags_and (flags c) LogOnCreation) = true ->
     error_text (length (errs s)) s (Some cause) = Some m ->
     logged s' =
     logged s ++
       [Error_format (name c) (strings.TrimRight m (newline +:+ " "))
                     (captured s (flags c))
        +:+ newline +:+
        string_of_list_byte (take (Z.to_nat (stackLogSize s)) (goroutine s))]) /\
  (forall e cl' s0 cause', exempted s0 e cl' cause' ->
     logged (fst (Wrap e (Some cause') cl' s0)) = logged s0) /\
  (forall s0 m, stackLogSize s0 < 0 ->
     LogWithStack m s0 = (s0, Panic makeslice_range)).
Proof.
  intros Hc Hw [Hcap Hlog] s'.
  set (x0 := mkError (Some cause) (Some a) None no_side).
  set (x1 := mkError (Some cause) (Some a) (captured s (flags c)) no_side).
  set (s1 := with_errs (errs s ++ [x1]) s).
  assert (s' = fst ((if 0 <? flags_and (flags c) LogOnCreation
                     then message <- Error_Error (length (errs s)) ;;
                          LogWithStack message
                     else ret tt)%go s1)) as Hs'.
  { unfold s', Wrap. unfold bind at 1.
    rewrite (wrappable_run s (Some a) cl cause Hw).
    unfold bind at 1. unfold alloc_error at 1.
    unfold bind at 1. unfold deref_class at 1.
    cbn [mbind option_bind classes with_errs]. rewrite Hc. cbn [deref ret].
    fold x0.
    assert ((if 0 <? flags_and (flags c) CaptureStack
             then size <- (fun s => make_bytes (stackCaptureSize s) s) ;;
                  buf <- runtime_Stack size ;; set_stack (length (errs s)) buf
             else ret tt)%go (with_errs (errs s ++ [x0]) s) = (s1, Ok tt))
      as Hrun1.
    { unfold s1, x1, captured.
      destruct (0 <? flags_and (flags c) CaptureStack); [|done].
      by rewrite (capture_run (with_errs (errs s ++ [x0]) s) (errs s) x0
                    (Hcap eq_refl) eq_refl). }
    unfold bind at 1. rewrite Hrun1. unfold bind at 1.
    by destruct ((if 0 <? flags_and (flags c) LogOnCreation
                  then message <- Error_Error (length (errs s)) ;;
                       LogWithStack message
                  else ret tt)%go s1) as [s2 [[]|v]]. }
  split_and!.
  - intros Hflag. rewrite Hs', Hflag. reflexivity.
  - intros m Hflag Hm. rewrite Hs', Hflag.
    destruct (Hlog Hflag) as [Hsz _].
    unfold bind.
    rewrite (Error_Error_run s1 (length (errs s)) x1 c m).
    + rewrite LogWithStack_run by done. cbn [fst logged with_logged].
      by rewrite render_format.
    + unfold s1. cbn [errs with_errs]. by apply list_lookup_middle.
    + cbn [class x1 mbind option_bind]. exact Hc.
    + apply (error_text_grows s); [done| |done]. by eexists.
  - intros e cl' s0 cause' Hex. by rewrite (Wrap_exempted s0 e cl' cause' Hex).
  - intros s0 m. apply LogWithStack_negative.
Qed.

Lemma Wrap_logs_on_creation_witness :
  classes boot !! ProgrammerError =
    Some (mkErrorClass (Some HierarchicalError) "Programmer Error" 3) /\
  wrappable boot (Some ProgrammerError) [] (PlainError 7 "boom") /\
  can_wrap boot (mkErrorClass (Some HierarchicalError) "Programmer Error" 3)
           (PlainError 7 "boom") /\
  logged (fst (Wrap (Some ProgrammerError) (Some (PlainError 7 "boom")) [] boot)) =
    ["Programmer Error: boom" +:+ newline +:+ newline +:+
     "Programmer Error backtrace: " +:+ newline].
Proof.
  assert (can_wrap boot
            (mkErrorClass (Some HierarchicalError) "Programmer Error" 3)
            (PlainError 7 "boom")) as Hcan.
  { split; intros _; [vm_compute; discriminate|].
    split; [vm_compute; discriminate|]. eexists. reflexivity. }
  split_and!; [reflexivity|exact I|exact Hcan|].
  destruct (Wrap_logs_on_creation boot ProgrammerError _ [] (PlainError 7 "boom")
              eq_refl I Hcan) as (_ & Hlog & _).
  rewrite (Hlog "boom" eq_refl eq_refl). vm_compute. reflexivity.
Defined.
